(** * A cache facade over a remote key-value store (package [data])

    Shallow embedding of the Go package [data] of go-story, which wraps a
    Redis client behind an [enabled] flag and derives cache keys from query
    parameters.  The package exists in two variants:

    - [src/internal/data/cache.go], embedded in [Module Quiet];
    - [src/unnamed/part_000], the same code with [log.Printf] calls,
      embedded in [Module Logged].

    The Redis client, [encoding/json], [crypto/sha256] and the logger are
    libraries the package calls.  They are collected in the class [Env];
    everything below is stated for an arbitrary [Env].  The calls made to the
    store are recorded in a trace, and the answer of the store to a call may
    depend on the whole trace so far. *)

From Stdlib Require Import ZArith List String Ascii Bool Lia.
From Stdlib Require Import Strings.Byte.
Import ListNotations.
Local Open Scope string_scope.
Local Open Scope Z_scope.

(* ===================================================================== *)
(** ** Go values *)
(* ===================================================================== *)

(** Go's [error] values.  [redis_Nil] is the sentinel [redis.Nil] that the
    client returns for an absent key; [errors_New] stands for any other root
    error; [fmt_Errorf format e] is [fmt.Errorf(format, e)] with a [%w] verb,
    an error that wraps [e]. *)
Inductive GoError : Type :=
| redis_Nil
| errors_New (msg : string)
| fmt_Errorf (format : string) (wrapped : GoError).

(** The interface type [error]; [nil] is [None]. *)
Definition error : Type := option GoError.
Definition nil_error : error := None.

Fixpoint GoError_eqb (a b : GoError) : bool :=
  match a, b with
  | redis_Nil, redis_Nil => true
  | errors_New m, errors_New m' => String.eqb m m'
  | fmt_Errorf f e, fmt_Errorf f' e' => String.eqb f f' && GoError_eqb e e'
  | _, _ => false
  end.

(** [errors.Is] below a non-nil error: compare, then unwrap. *)
Fixpoint chain_Is (e target : GoError) : bool :=
  GoError_eqb e target ||
  match e with
  | fmt_Errorf _ e' => chain_Is e' target
  | _ => false
  end.

(** [errors.Is(err, target)]; false on a nil [err]. *)
Definition errors_Is (err : error) (target : GoError) : bool :=
  match err with
  | None => false
  | Some e => chain_Is e target
  end.

(** [time.Duration] is an [int64] count of nanoseconds; arithmetic on it
    wraps around. *)
Definition Duration : Type := Z.

Definition wrap64 (z : Z) : Z := (z + 2 ^ 63) mod 2 ^ 64 - 2 ^ 63.

Definition time_Second : Duration := 1000000000.

Definition Duration_mul (a b : Duration) : Duration := wrap64 (a * b).

(** [context.Context], as far as the package builds and passes contexts. *)
Inductive Context : Type :=
| context_Background
| context_WithTimeout (parent : Context) (timeout : Duration)
| context_WithCancel (parent : Context).

(** [[]byte] and the conversion [[]byte(s)] of a string. *)
Definition bytes : Type := list byte.

(* ===================================================================== *)
(** ** encoding/hex *)
(* ===================================================================== *)

Definition hextable : string := "0123456789abcdef".

(** [hextable[i]]; every index the encoder uses is below 16. *)
Definition hextable_at (i : N) : ascii :=
  match String.get (N.to_nat i) hextable with
  | Some c => c
  | None => Ascii.zero
  end.

(** [hex.Encode]: two digits per byte, high nibble first. *)
Fixpoint hex_Encode (src : bytes) : list ascii :=
  match src with
  | [] => []
  | v :: rest =>
      hextable_at (N.shiftr (Byte.to_N v) 4)
        :: hextable_at (N.land (Byte.to_N v) 15)
        :: hex_Encode rest
  end.

Definition hex_EncodeToString (src : bytes) : string :=
  string_of_list_ascii (hex_Encode src).

(** Membership in [0-9a-f]. *)
Definition is_hex_digit (c : ascii) : bool :=
  let n := N_of_ascii c in
  ((48 <=? n) && (n <=? 57) || (97 <=? n) && (n <=? 102))%N.


(* ===================================================================== *)
(** ** The collaborators *)
(* ===================================================================== *)

(** A [*redis.Client]: the options it was built from, and a number that
    tells apart clients built from equal options. *)
Record Client {Options : Type} : Type := mkClient {
  client_id : nat;
  client_opt : Options
}.
Arguments Client : clear implicits.
Arguments mkClient {Options} client_id client_opt.

(** One call to the store client, with the answer it got. *)
Inductive Event {Options : Type} : Type :=
| EvNewClient (cl : Client Options)
| EvPing (cl : Client Options) (ctx : Context) (r : error)
| EvGet (cl : Client Options) (ctx : Context) (key : string)
        (val : string) (r : error)
| EvSet (cl : Client Options) (ctx : Context) (key : string)
        (data : bytes) (expiration : Duration) (r : error)
| EvDel (cl : Client Options) (ctx : Context) (key : string) (r : error)
| EvClose (cl : Client Options) (r : error).
Arguments Event : clear implicits.

(** The libraries the package is linked with.

    - [Options] is [*redis.Options]; [Value] the values handed to
      [json.Marshal] as [interface{}]; [Dest] the contents of the location
      that the [dest] argument of [Get] points to.
    - [json_Unmarshal data d] returns the contents of the destination after
      the call, and the error.
    - [sha256_Sum256] returns a [[32]byte]; [sha256_Size] is that array type.
    - The [store_*] functions are the store and the network: the answer to a
      call, given every earlier call (most recent first). *)
Class Env : Type := {
  Options : Type;
  Value : Type;
  Dest : Type;
  redis_ParseURL : string -> Options + GoError;
  json_Marshal : Value -> bytes + GoError;
  json_Unmarshal : bytes -> Dest -> Dest * error;
  sha256_Sum256 : bytes -> bytes;
  sha256_Size : forall data, List.length (sha256_Sum256 data) = 32%nat;
  store_Ping : list (Event Options) -> Client Options -> Context -> error;
  store_Get : list (Event Options) -> Client Options -> Context -> string ->
              string * error;
  store_Set : list (Event Options) -> Client Options -> Context -> string ->
              bytes -> Duration -> error;
  store_Del : list (Event Options) -> Client Options -> Context -> string ->
              error;
  store_Close : list (Event Options) -> Client Options -> error
}.

(** An argument of [log.Printf]. *)
Inductive LogArg : Type :=
| ArgString (s : string)
| ArgInt (n : Z)
| ArgDuration (d : Duration)
| ArgError (e : GoError).

(** One [log.Printf(format, args...)]. *)
Record LogLine : Type := mkLogLine {
  log_format : string;
  log_args : list LogArg
}.

Section Runtime.
Context {E : Env}.

(** What the program has done to the outside: the calls to the store
    client and the lines logged, both most recent first. *)
Record World : Type := mkWorld {
  calls : list (Event Options);
  logs : list LogLine
}.

(** The outcome of running a piece of the program: it returns, or it
    panics (a nil pointer dereference). *)
Inductive Res (A : Type) : Type :=
| Done (a : A) (w : World)
| Panicked (w : World).
Arguments Done {A} a w.
Arguments Panicked {A} w.

Definition M (A : Type) : Type := World -> Res A.

Definition ret {A : Type} (a : A) : M A := fun w => Done a w.

Definition bind {A B : Type} (m : M A) (k : A -> M B) : M B :=
  fun w =>
    match m w with
    | Done a w' => k a w'
    | Panicked w' => Panicked w'
    end.

Definition record (ev : Event Options) (w : World) : World :=
  {| calls := ev :: calls w; logs := logs w |}.

(** [log.Printf]. *)
Definition log_Printf (format : string) (args : list LogArg) : M unit :=
  fun w => Done tt {| calls := calls w;
                      logs := mkLogLine format args :: logs w |}.

(** The number of clients built so far. *)
Fixpoint clients_built (tr : list (Event Options)) : nat :=
  match tr with
  | [] => 0%nat
  | EvNewClient _ :: tr' => S (clients_built tr')
  | _ :: tr' => clients_built tr'
  end.

(** [redis.NewClient(opt)]. *)
Definition redis_NewClient (opt : Options) : M (Client Options) :=
  fun w =>
    let cl := mkClient (clients_built (calls w)) opt in
    Done cl (record (EvNewClient cl) w).

(** [p.Method(...)] on a [*redis.Client] that may be nil. *)
Definition deref (p : option (Client Options)) : M (Client Options) :=
  fun w =>
    match p with
    | Some cl => Done cl w
    | None => Panicked w
    end.

(** [cl.Ping(ctx).Err()]. *)
Definition client_Ping (cl : Client Options) (ctx : Context) : M error :=
  fun w =>
    let r := store_Ping (calls w) cl ctx in
    Done r (record (EvPing cl ctx r) w).

(** [cl.Get(ctx, key).Result()]. *)
Definition client_Get (cl : Client Options) (ctx : Context) (key : string)
  : M (string * error) :=
  fun w =>
    let '(val, r) := store_Get (calls w) cl ctx key in
    Done (val, r) (record (EvGet cl ctx key val r) w).

(** [cl.Set(ctx, key, data, expiration).Err()]. *)
Definition client_Set (cl : Client Options) (ctx : Context) (key : string)
           (data : bytes) (expiration : Duration) : M error :=
  fun w =>
    let r := store_Set (calls w) cl ctx key data expiration in
    Done r (record (EvSet cl ctx key data expiration r) w).

(** [cl.Del(ctx, key).Err()]. *)
Definition client_Del (cl : Client Options) (ctx : Context) (key : string)
  : M error :=
  fun w =>
    let r := store_Del (calls w) cl ctx key in
    Done r (record (EvDel cl ctx key r) w).

(** [cl.Close()]. *)
Definition client_Close (cl : Client Options) : M error :=
  fun w =>
    let r := store_Close (calls w) cl in
    Done r (record (EvClose cl r) w).

(** The struct [Cache], the same in both variants. *)
Record Cache : Type := mkCache {
  client : option (Client Options);
  enabled : bool;
  ttl : Duration
}.

(** The assignment [c.enabled = b]. *)
Definition set_enabled (c : Cache) (b : bool) : Cache :=
  {| client := client c; enabled := b; ttl := ttl c |}.

(** The assignment [c.client = cl]. *)
Definition set_client (c : Cache) (cl : Client Options) : Cache :=
  {| client := Some cl; enabled := enabled c; ttl := ttl c |}.

(** A caller's call of one of the three data operations, and what the
    caller sees when it returns ([OutGet] carries the contents of the
    destination after the call). *)
Inductive Op : Type :=
| OpGet (ctx : Context) (key : string) (dest : Dest)
| OpSet (ctx : Context) (key : string) (value : Value)
| OpDelete (ctx : Context) (key : string).

Inductive Out : Type :=
| OutGet (found : bool) (err : error) (dest : Dest)
| OutSet (err : error)
| OutDelete (err : error).

(** What a call returns when it does nothing. *)
Definition noop (op : Op) : Out :=
  match op with
  | OpGet _ _ dest => OutGet false nil_error dest
  | OpSet _ _ _ => OutSet nil_error
  | OpDelete _ _ => OutDelete nil_error
  end.

(** A store-level failure, as the data operations see it: a read that
    failed for another reason than an absent key, a write or a delete
    that failed. *)
Definition store_failure (ev : Event Options) : bool :=
  match ev with
  | EvGet _ _ _ _ (Some e) => negb (chain_Is e redis_Nil)
  | EvSet _ _ _ _ _ (Some _) => true
  | EvDel _ _ _ (Some _) => true
  | _ => false
  end.

(** The worlds agree on the calls made to the store (not on the log). *)
Definition same_calls (w1 w2 : World) : Prop := calls w1 = calls w2.

(** Two runs end the same way, up to the log. *)
Definition Res_equiv {A : Type} (r1 r2 : Res A) : Prop :=
  match r1, r2 with
  | Done a1 w1, Done a2 w2 => a1 = a2 /\ same_calls w1 w2
  | Panicked w1, Panicked w2 => same_calls w1 w2
  | _, _ => False
  end.

End Runtime.

Arguments Done {E A} a w.
Arguments Panicked {E A} w.

Declare Scope go_scope.
Delimit Scope go_scope with go.
Notation "x <- m ;; k" := (bind m (fun x => k))
  (at level 61, m at next level, right associativity) : go_scope.
Notation "m ;;; k" := (bind m (fun _ => k))
  (at level 61, right associativity) : go_scope.

Local Open Scope go_scope.

(* ===================================================================== *)
(** ** The package, variant [src/internal/data/cache.go] *)
(* ===================================================================== *)

Module Quiet.
Section Package.
Context {E : Env}.

(** [NewCache(redisURL, enabled, ttlSeconds)], which returns a pointer to a
    [Cache] (here [Some] of its contents; [None] would be a nil pointer) and
    an [error].  The deferred [cancel()] releases the timer of the context
    and is not modelled. *)
Definition NewCache (redisURL : string) (enabled : bool) (ttlSeconds : Z)
  : M (option Cache * error) :=
  let cache := mkCache None false (Duration_mul ttlSeconds time_Second) in
  if negb enabled || (redisURL =? "")%string then
    ret (Some cache, nil_error)
  else
    match redis_ParseURL redisURL with
    | inr _ => ret (Some cache, nil_error)
    | inl opt =>
        client <- redis_NewClient opt ;;
        let ctx :=
          context_WithTimeout context_Background (5 * time_Second) in
        err <- client_Ping client ctx ;;
        match err with
        | Some _ =>
            client_Close client ;;;
            ret (Some cache, nil_error)
        | None =>
            let cache := set_client cache client in
            let cache := set_enabled cache true in
            ret (Some cache, nil_error)
        end
    end.

(** Method [Enabled() bool]. *)
Definition Enabled (c : Cache) : bool :=
  enabled c && match client c with Some _ => true | None => false end.

(** Method [Close() error]. *)
Definition Close (c : Cache) : M error :=
  match client c with
  | Some cl => client_Close cl
  | None => ret nil_error
  end.

(** Method [Get(ctx, key, dest) (bool, error)].  The result carries
    the contents of [dest] and of the receiver after the call. *)
Definition Get (c : Cache) (ctx : Context) (key : string) (dest : Dest)
  : M (bool * error * Dest * Cache) :=
  if negb (Enabled c) then
    ret (false, nil_error, dest, c)
  else
    cl <- deref (client c) ;;
    r <- client_Get cl ctx key ;;
    let '(val, err) := r in
    if errors_Is err redis_Nil then
      ret (false, nil_error, dest, c)
    else
      match err with
      | Some _ => ret (false, nil_error, dest, set_enabled c false)
      | None =>
          let '(dest', uerr) :=
            json_Unmarshal (list_byte_of_string val) dest in
          match uerr with
          | Some e =>
              ret (false, Some (fmt_Errorf "unmarshal cache value: %w" e),
                   dest', c)
          | None => ret (true, nil_error, dest', c)
          end
      end.

(** Method [Set(ctx, key, value) error]; [Set] is a reserved word here. *)
Definition Set_ (c : Cache) (ctx : Context) (key : string) (value : Value)
  : M (error * Cache) :=
  if negb (Enabled c) then
    ret (nil_error, c)
  else
    match json_Marshal value with
    | inr e => ret (Some (fmt_Errorf "marshal cache value: %w" e), c)
    | inl data =>
        cl <- deref (client c) ;;
        err <- client_Set cl ctx key data (ttl c) ;;
        match err with
        | Some _ => ret (nil_error, set_enabled c false)
        | None => ret (nil_error, c)
        end
    end.

(** Method [Delete(ctx, key) error]. *)
Definition Delete (c : Cache) (ctx : Context) (key : string)
  : M (error * Cache) :=
  if negb (Enabled c) then
    ret (nil_error, c)
  else
    cl <- deref (client c) ;;
    err <- client_Del cl ctx key ;;
    match err with
    | Some _ => ret (nil_error, set_enabled c false)
    | None => ret (nil_error, c)
    end.

(** [GenerateCacheKey(prefix, params) string]. *)
Definition GenerateCacheKey (prefix : string) (params : Value) : string :=
  match json_Marshal params with
  | inr _ => prefix ++ ":fallback"
  | inl data =>
      let hash := sha256_Sum256 data in
      let hashStr := hex_EncodeToString hash in
      prefix ++ ":" ++ hashStr
  end.

(** One call by a caller, and a sequence of calls on the same [Cache]. *)
Definition call (op : Op) (c : Cache) : M (Out * Cache) :=
  match op with
  | OpGet ctx key dest =>
      r <- Get c ctx key dest ;;
      let '(found, err, dest', c') := r in
      ret (OutGet found err dest', c')
  | OpSet ctx key value =>
      r <- Set_ c ctx key value ;;
      let '(err, c') := r in
      ret (OutSet err, c')
  | OpDelete ctx key =>
      r <- Delete c ctx key ;;
      let '(err, c') := r in
      ret (OutDelete err, c')
  end.

Fixpoint run (ops : list Op) (c : Cache) : M (list Out * Cache) :=
  match ops with
  | [] => ret ([], c)
  | op :: rest =>
      r <- call op c ;;
      let '(o, c') := r in
      r' <- run rest c' ;;
      let '(os, c'') := r' in
      ret (o :: os, c'')
  end.

End Package.
End Quiet.

(* ===================================================================== *)
(** ** The package, variant [src/unnamed/part_000] *)
(* ===================================================================== *)

Module Logged.
Section Package.
Context {E : Env}.

(** [NewCache(redisURL, enabled, ttlSeconds)]. *)
Definition NewCache (redisURL : string) (enabled : bool) (ttlSeconds : Z)
  : M (option Cache * error) :=
  let cache := mkCache None false (Duration_mul ttlSeconds time_Second) in
  if negb enabled then
    log_Printf "[Redis] Cache disabled (REDIS_ENABLED=false)" [] ;;;
    ret (Some cache, nil_error)
  else if (redisURL =? "")%string then
    log_Printf "[Redis] Cache disabled (REDIS_URL not set)" [] ;;;
    ret (Some cache, nil_error)
  else
    log_Printf "[Redis] Initializing cache with URL: %s, TTL: %d seconds"
               [ArgString redisURL; ArgInt ttlSeconds] ;;;
    match redis_ParseURL redisURL with
    | inr err =>
        log_Printf "[Redis] Failed to parse Redis URL: %v" [ArgError err] ;;;
        ret (Some cache, nil_error)
    | inl opt =>
        client <- redis_NewClient opt ;;
        let ctx :=
          context_WithTimeout context_Background (5 * time_Second) in
        err <- client_Ping client ctx ;;
        match err with
        | Some e =>
            log_Printf "[Redis] Connection failed: %v" [ArgError e] ;;;
            client_Close client ;;;
            ret (Some cache, nil_error)
        | None =>
            let cache := set_client cache client in
            let cache := set_enabled cache true in
            log_Printf "[Redis] Cache enabled and connected successfully"
                       [] ;;;
            ret (Some cache, nil_error)
        end
    end.

(** Method [Enabled() bool]. *)
Definition Enabled (c : Cache) : bool :=
  enabled c && match client c with Some _ => true | None => false end.

(** Method [Close() error]. *)
Definition Close (c : Cache) : M error :=
  match client c with
  | Some cl => client_Close cl
  | None => ret nil_error
  end.

(** Method [Get(ctx, key, dest) (bool, error)]. *)
Definition Get (c : Cache) (ctx : Context) (key : string) (dest : Dest)
  : M (bool * error * Dest * Cache) :=
  if negb (Enabled c) then
    ret (false, nil_error, dest, c)
  else
    cl <- deref (client c) ;;
    r <- client_Get cl ctx key ;;
    let '(val, err) := r in
    if errors_Is err redis_Nil then
      log_Printf "[Redis] Cache miss: %s" [ArgString key] ;;;
      ret (false, nil_error, dest, c)
    else
      match err with
      | Some e =>
          log_Printf "[Redis] Get error for key %s: %v (disabling cache)"
                     [ArgString key; ArgError e] ;;;
          ret (false, nil_error, dest, set_enabled c false)
      | None =>
          let '(dest', uerr) :=
            json_Unmarshal (list_byte_of_string val) dest in
          match uerr with
          | Some e =>
              log_Printf "[Redis] Unmarshal error for key %s: %v"
                         [ArgString key; ArgError e] ;;;
              ret (false, Some (fmt_Errorf "unmarshal cache value: %w" e),
                   dest', c)
          | None =>
              log_Printf "[Redis] Cache hit: %s" [ArgString key] ;;;
              ret (true, nil_error, dest', c)
          end
      end.

(** Method [Set(ctx, key, value) error]; [Set] is a reserved word here. *)
Definition Set_ (c : Cache) (ctx : Context) (key : string) (value : Value)
  : M (error * Cache) :=
  if negb (Enabled c) then
    ret (nil_error, c)
  else
    match json_Marshal value with
    | inr e =>
        log_Printf "[Redis] Marshal error for key %s: %v"
                   [ArgString key; ArgError e] ;;;
        ret (Some (fmt_Errorf "marshal cache value: %w" e), c)
    | inl data =>
        cl <- deref (client c) ;;
        err <- client_Set cl ctx key data (ttl c) ;;
        match err with
        | Some e =>
            log_Printf "[Redis] Set error for key %s: %v (disabling cache)"
                       [ArgString key; ArgError e] ;;;
            ret (nil_error, set_enabled c false)
        | None =>
            log_Printf "[Redis] Cache set: %s (TTL: %v)"
                       [ArgString key; ArgDuration (ttl c)] ;;;
            ret (nil_error, c)
        end
    end.

(** Method [Delete(ctx, key) error]. *)
Definition Delete (c : Cache) (ctx : Context) (key : string)
  : M (error * Cache) :=
  if negb (Enabled c) then
    ret (nil_error, c)
  else
    cl <- deref (client c) ;;
    err <- client_Del cl ctx key ;;
    match err with
    | Some e =>
        log_Printf "[Redis] Delete error for key %s: %v (disabling cache)"
                   [ArgString key; ArgError e] ;;;
        ret (nil_error, set_enabled c false)
    | None =>
        log_Printf "[Redis] Cache deleted: %s" [ArgString key] ;;;
        ret (nil_error, c)
    end.

(** [GenerateCacheKey(prefix, params) string]. *)
Definition GenerateCacheKey (prefix : string) (params : Value) : string :=
  match json_Marshal params with
  | inr _ => prefix ++ ":fallback"
  | inl data =>
      let hash := sha256_Sum256 data in
      let hashStr := hex_EncodeToString hash in
      prefix ++ ":" ++ hashStr
  end.

(** One call by a caller, and a sequence of calls on the same [Cache]. *)
Definition call (op : Op) (c : Cache) : M (Out * Cache) :=
  match op with
  | OpGet ctx key dest =>
      r <- Get c ctx key dest ;;
      let '(found, err, dest', c') := r in
      ret (OutGet found err dest', c')
  | OpSet ctx key value =>
      r <- Set_ c ctx key value ;;
      let '(err, c') := r in
      ret (OutSet err, c')
  | OpDelete ctx key =>
      r <- Delete c ctx key ;;
      let '(err, c') := r in
      ret (OutDelete err, c')
  end.

Fixpoint run (ops : list Op) (c : Cache) : M (list Out * Cache) :=
  match ops with
  | [] => ret ([], c)
  | op :: rest =>
      r <- call op c ;;
      let '(o, c') := r in
      r' <- run rest c' ;;
      let '(os, c'') := r' in
      ret (o :: os, c'')
  end.

End Package.
End Logged.

(* ===================================================================== *)
(** ** A test double for the collaborators *)
(* ===================================================================== *)

(** An in-memory stand-in for the libraries, used to run the package on
    concrete inputs.  The store keeps what was written, as read back from
    the trace; the network carries [budget] calls and refuses every later
    one.  Values are raw JSON messages: [None] is a value that cannot be
    encoded (a channel, say), and the empty message cannot be decoded. *)
Module Stub.

Definition ParseURL (url : string) : string + GoError :=
  if String.prefix "redis://" url
  then inl (String.substring 8 (String.length url - 8) url)
  else inr (errors_New "redis: invalid URL scheme").

Definition Marshal (v : option bytes) : bytes + GoError :=
  match v with
  | Some data => inl data
  | None => inr (errors_New "json: unsupported type: chan int")
  end.

Definition Unmarshal (data : bytes) (dest : option bytes)
  : option bytes * error :=
  match data with
  | [] => (dest, Some (errors_New "unexpected end of JSON input"))
  | _ => (Some data, nil_error)
  end.

(** Not SHA-256: thirty-two bytes that depend on the sum of the input. *)
Definition Sum256 (data : bytes) : bytes :=
  let sum := fold_right (fun b acc => (Byte.to_N b + acc)%N) 0%N data in
  map (fun i => match Byte.of_N ((sum + N.of_nat i) mod 256)%N with
                | Some b => b
                | None => x00
                end)
      (seq 0 32).

Definition refused : GoError := errors_New "dial tcp: connection refused".

(** The value stored under [key] after the calls of the trace. *)
Fixpoint stored (tr : list (Event string)) (key : string) : option bytes :=
  match tr with
  | [] => None
  | EvSet _ _ k data _ None :: tr' =>
      if (k =? key)%string then Some data else stored tr' key
  | EvDel _ _ k None :: tr' =>
      if (k =? key)%string then None else stored tr' key
  | _ :: tr' => stored tr' key
  end.

Definition up (budget : nat) (tr : list (Event string)) : bool :=
  (List.length tr <? budget)%nat.

Definition answer (budget : nat) (tr : list (Event string)) : error :=
  if up budget tr then nil_error else Some refused.

Definition Get (budget : nat) (tr : list (Event string))
           (key : string) : string * error :=
  if up budget tr then
    match stored tr key with
    | Some data => (string_of_list_byte data, nil_error)
    | None => (EmptyString, Some redis_Nil)
    end
  else (EmptyString, Some refused).

Definition env (budget : nat) : Env :=
  {| Options := string;
     Value := option bytes;
     Dest := option bytes;
     redis_ParseURL := ParseURL;
     json_Marshal := Marshal;
     json_Unmarshal := Unmarshal;
     sha256_Sum256 := Sum256;
     sha256_Size := fun _ => eq_refl;
     store_Ping := fun tr _ _ => answer budget tr;
     store_Get := fun tr _ _ key => Get budget tr key;
     store_Set := fun tr _ _ _ _ _ => answer budget tr;
     store_Del := fun tr _ _ _ => answer budget tr;
     store_Close := fun tr _ => answer budget tr |}.

(** The world before anything has happened. *)
Definition start (budget : nat) : @World (env budget) :=
  @mkWorld (env budget) [] [].

(** An address, the client [NewCache] builds for it in [start], and the
    context of its ping. *)
Definition url : string := "redis://cache:6379".

Definition cl : Client string := mkClient 0 "cache:6379".

Definition ping_ctx : Context :=
  context_WithTimeout context_Background 5000000000.

(** The world after a successful [NewCache url true 60], and the [Cache]
    it returns. *)
Definition connected (budget : nat) : @World (env budget) :=
  @mkWorld (env budget) [EvPing cl ping_ctx None; EvNewClient cl] [].

Definition live (budget : nat) : @Cache (env budget) :=
  @mkCache (env budget) (Some cl) true 60000000000.

(** The same [Cache] with the flag cleared. *)
Definition dead (budget : nat) : @Cache (env budget) :=
  @mkCache (env budget) (Some cl) false 60000000000.

(** A world with one more call. *)
Definition after (budget : nat) (ev : Event string) (w : @World (env budget))
  : @World (env budget) :=
  @record (env budget) ev w.

(** The same calls as [connected], with something in the log. *)
Definition connected_logged (budget : nat) : @World (env budget) :=
  @mkWorld (env budget) [EvPing cl ping_ctx None; EvNewClient cl]
           [mkLogLine "[Redis] Cache enabled and connected successfully" []].

(** A read of key [k] that the network refused, one that found nothing,
    and a write of [data] under [k] that went through. *)
Definition get_refused : Event string :=
  EvGet cl context_Background "k" "" (Some refused).

Definition get_absent : Event string :=
  EvGet cl context_Background "k" "" (Some redis_Nil).

Definition set_done (data : bytes) : Event string :=
  EvSet cl context_Background "k" data 60000000000 None.

(** Three calls by a caller. *)
Definition three (budget : nat) : list (@Op (env budget)) :=
  [@OpSet (env budget) context_Background "k" (Some [x31]);
   @OpGet (env budget) context_Background "k" None;
   @OpDelete (env budget) context_Background "k"].

End Stub.

(* ===================================================================== *)
(** ** Reading results, traces and logs *)
(* ===================================================================== *)

(** The value of one digit of [hextable], and the byte that two digits
    stand for: the inverse of one step of [hex_Encode]. *)
Definition hex_value (ch : ascii) : N :=
  let n := N_of_ascii ch in
  if ((48 <=? n) && (n <=? 57))%N then (n - 48)%N else (n - 87)%N.

Definition unhex_pair (hi lo : ascii) : option byte :=
  Byte.of_N (16 * hex_value hi + hex_value lo)%N.

Section Observations.
Context {E : Env}.

(** The error a caller gets back from a call. *)
Definition Out_error (o : Out) : error :=
  match o with
  | OutGet _ err _ => err
  | OutSet err => err
  | OutDelete err => err
  end.

(** The key a call is about. *)
Definition Op_key (op : Op) : string :=
  match op with
  | OpGet _ key _ => key
  | OpSet _ key _ => key
  | OpDelete _ key => key
  end.

(** [e] is what [Get] or [Set] make of an error of the JSON decoder or
    encoder; [Delete] has no such error. *)
Definition codec_error (op : Op) (e : GoError) : Prop :=
  match op with
  | OpGet _ _ dest =>
      exists data dest' e0,
        json_Unmarshal data dest = (dest', Some e0) /\
        e = fmt_Errorf "unmarshal cache value: %w" e0
  | OpSet _ _ value =>
      exists e0,
        json_Marshal value = inr e0 /\
        e = fmt_Errorf "marshal cache value: %w" e0
  | OpDelete _ _ => False
  end.

(** [ev] is the store call of [op] on the [Cache] [c]: the read, write or
    delete of the caller's key, under the caller's context, on the client of
    [c]; a write carries the encoding of the caller's value and the [ttl] of
    [c]. *)
Definition event_for (c : Cache) (op : Op) (ev : Event Options) : Prop :=
  match op, ev with
  | OpGet ctx key _, EvGet cl ctx' key' _ _ =>
      client c = Some cl /\ ctx' = ctx /\ key' = key
  | OpSet ctx key value, EvSet cl ctx' key' data expiration _ =>
      client c = Some cl /\ ctx' = ctx /\ key' = key /\
      json_Marshal value = inl data /\ expiration = ttl c
  | OpDelete ctx key, EvDel cl ctx' key' _ =>
      client c = Some cl /\ ctx' = ctx /\ key' = key
  | _, _ => False
  end.

(** The [Cache] after a run that made the store calls [new] (most recent
    first): the flag is cleared when the last call was a store-level
    failure. *)
Definition after_calls (c : Cache) (new : list (Event Options)) : Cache :=
  match new with
  | ev :: _ => if store_failure ev then set_enabled c false else c
  | [] => c
  end.

End Observations.

(* ===================================================================== *)
(** ** Basic facts *)
(* ===================================================================== *)

Ltac unfold_go :=
  unfold Quiet.Get, Quiet.Set_, Quiet.Delete, Quiet.Close, Quiet.NewCache,
         Logged.Get, Logged.Set_, Logged.Delete, Logged.Close,
         Logged.NewCache,
         bind, ret, deref, client_Get, client_Set, client_Del, client_Close,
         client_Ping, redis_NewClient, log_Printf, record, nil_error in *.

(** For the comparison of the variants: name the common trace of two
    worlds, and close a goal about two runs that ended the same way. *)
Ltac same_trace w1 w2 :=
  let tr := fresh "tr" in
  let H := fresh "H" in
  unfold same_calls; intros H;
  destruct w1 as [tr ?], w2 as [? ?]; simpl in H; subst tr.

Ltac close_equiv := simpl; unfold same_calls; simpl; auto.

Lemma GoError_eqb_refl (e : GoError) : GoError_eqb e e = true.
Proof.
  induction e as [|m|f e IH]; simpl; rewrite ?String.eqb_refl, ?IH; reflexivity.
Qed.

Lemma chain_Is_refl (e : GoError) : chain_Is e e = true.
Proof. destruct e; simpl; now rewrite ?GoError_eqb_refl, ?String.eqb_refl. Qed.

(** [fmt.Errorf] with [%w] wraps: [errors.Is] finds the wrapped error. *)
Lemma errors_Is_wrapped (format : string) (e : GoError) :
  errors_Is (Some (fmt_Errorf format e)) e = true.
Proof. simpl. rewrite chain_Is_refl. apply orb_true_r. Qed.

Section Facts.
Context {E : Env}.

Lemma Enabled_true (c : Cache) :
  Quiet.Enabled c = true ->
  enabled c = true /\ exists cl, client c = Some cl.
Proof.
  unfold Quiet.Enabled. destruct (enabled c), (client c) as [cl|];
    simpl; intros H; try discriminate. split; [reflexivity | now exists cl].
Qed.

Lemma cons_neq_self {A : Type} (x : A) (l : list A) : l <> x :: l.
Proof.
  intros H. apply (f_equal (@List.length A)) in H. simpl in H. lia.
Qed.

(** On a disabled [Cache] each data operation returns at once. *)
Lemma Get_disabled (c : Cache) ctx key dest w :
  Quiet.Enabled c = false ->
  Quiet.Get c ctx key dest w = Done (false, nil_error, dest, c) w.
Proof. unfold Quiet.Get. now intros ->. Qed.

Lemma Set_disabled (c : Cache) ctx key value w :
  Quiet.Enabled c = false ->
  Quiet.Set_ c ctx key value w = Done (nil_error, c) w.
Proof. unfold Quiet.Set_. now intros ->. Qed.

Lemma Delete_disabled (c : Cache) ctx key w :
  Quiet.Enabled c = false ->
  Quiet.Delete c ctx key w = Done (nil_error, c) w.
Proof. unfold Quiet.Delete. now intros ->. Qed.

Lemma call_disabled (op : Op) (c : Cache) (w : World) :
  Quiet.Enabled c = false ->
  Quiet.call op c w = Done (noop op, c) w.
Proof.
  intros H. destruct op; unfold Quiet.call, bind; simpl.
  - now rewrite Get_disabled.
  - now rewrite Set_disabled.
  - now rewrite Delete_disabled.
Qed.

Lemma run_disabled (ops : list Op) (c : Cache) (w : World) :
  Quiet.Enabled c = false ->
  Quiet.run ops c w = Done (map noop ops, c) w.
Proof.
  intros H. induction ops as [|op ops IH]; simpl.
  - reflexivity.
  - unfold bind. rewrite call_disabled by assumption.
    fold (@bind E). unfold bind. now rewrite IH.
Qed.

(** What one call does to the [Cache] and to the trace: it returns; it
    writes nothing to the log; it either makes no call to the store and
    leaves the [Cache] as it is, or makes exactly one, on an enabled
    [Cache], and clears the flag when that call is a store-level failure. *)
Lemma call_spec (op : Op) (c : Cache) (w : World) :
  exists o c' w',
    Quiet.call op c w = Done (o, c') w' /\
    logs w' = logs w /\
    ((calls w' = calls w /\ c' = c) \/
     (exists ev, calls w' = ev :: calls w /\
                 Quiet.Enabled c = true /\
                 c' = if store_failure ev then set_enabled c false else c)).
Proof.
  destruct (Quiet.Enabled c) eqn:En.
  2:{ exists (noop op), c, w. rewrite call_disabled by assumption. auto. }
  destruct (Enabled_true c En) as [Hf [cl Hcl]].
  destruct op as [ctx key dest | ctx key value | ctx key];
    unfold Quiet.call; unfold_go; rewrite En, ?Hcl; simpl.
  - destruct (store_Get (calls w) cl ctx key) as [val [e|]] eqn:HG; simpl.
    + destruct (chain_Is e redis_Nil) eqn:HN; simpl.
      * do 3 eexists. split; [reflexivity|]. split; [reflexivity|].
        right. eexists. split; [reflexivity|]. simpl. now rewrite HN.
      * do 3 eexists. split; [reflexivity|]. split; [reflexivity|].
        right. eexists. split; [reflexivity|]. simpl. now rewrite HN.
    + destruct (json_Unmarshal (list_byte_of_string val) dest)
        as [dest' [ue|]]; simpl;
        (do 3 eexists; split; [reflexivity|]; split; [reflexivity|];
         right; eexists; split; [reflexivity|]; simpl; auto).
  - destruct (json_Marshal value) as [data|e]; simpl.
    + destruct (store_Set (calls w) cl ctx key data (ttl c)) as [e|] eqn:HS;
        simpl;
        (do 3 eexists; split; [reflexivity|]; split; [reflexivity|];
         right; eexists; split; [reflexivity|]; simpl; auto).
    + do 3 eexists. split; [reflexivity|]. auto.
  - destruct (store_Del (calls w) cl ctx key) as [e|] eqn:HD; simpl;
      (do 3 eexists; split; [reflexivity|]; split; [reflexivity|];
       right; eexists; split; [reflexivity|]; simpl; auto).
Qed.

(** A call never sets the flag, and touches no other field. *)
Lemma call_frame (op : Op) (c c' : Cache) (w w' : World) (o : Out) :
  Quiet.call op c w = Done (o, c') w' ->
  client c' = client c /\ ttl c' = ttl c /\
  (enabled c = false -> enabled c' = false).
Proof.
  intros H. destruct (call_spec op c w) as (o0 & c0 & w0 & H0 & _ & Hc).
  rewrite H0 in H. injection H as -> -> ->.
  destruct Hc as [[_ ->] | (ev & _ & _ & ->)]; [auto|].
  destruct (store_failure ev); auto.
Qed.

(** Sequences of calls compose. *)
Lemma run_app (pre post : list Op) (c : Cache) (w : World) :
  Quiet.run (pre ++ post)%list c w =
  match Quiet.run pre c w with
  | Done (o1, c1) w1 =>
      match Quiet.run post c1 w1 with
      | Done (o2, c2) w2 => Done ((o1 ++ o2)%list, c2) w2
      | Panicked w2 => Panicked w2
      end
  | Panicked w1 => Panicked w1
  end.
Proof.
  revert c w. induction pre as [|op pre IH]; intros c w; simpl.
  - unfold ret. destruct (Quiet.run post c w) as [[o2 c2] w2|]; reflexivity.
  - unfold bind at 1 3. destruct (Quiet.call op c w) as [[o c'] w'|];
      [|reflexivity].
    unfold bind. rewrite IH.
    destruct (Quiet.run pre c' w') as [[o1 c1] w1|]; [|reflexivity].
    unfold ret; simpl.
    destruct (Quiet.run post c1 w1) as [[o2 c2] w2|]; reflexivity.
Qed.

(** A sequence of calls returns, writes nothing to the log, never sets
    the flag, and touches no other field. *)
Lemma run_spec (ops : list Op) (c : Cache) (w : World) :
  exists outs c' w',
    Quiet.run ops c w = Done (outs, c') w' /\
    List.length outs = List.length ops /\
    logs w' = logs w /\
    client c' = client c /\ ttl c' = ttl c /\
    (enabled c = false -> enabled c' = false).
Proof.
  revert c w. induction ops as [|op ops IH]; intros c w; simpl.
  - exists [], c, w. unfold ret. auto 10.
  - destruct (call_spec op c w) as (o & c1 & w1 & H1 & Hl1 & _).
    destruct (call_frame _ _ _ _ _ _ H1) as (Hc1 & Ht1 & He1).
    destruct (IH c1 w1) as (os & c2 & w2 & H2 & Hn & Hl2 & Hc2 & Ht2 & He2).
    exists (o :: os), c2, w2. unfold bind. rewrite H1. rewrite H2.
    unfold ret. simpl. repeat split; try congruence; auto.
Qed.

End Facts.

(* ===================================================================== *)
(** ** The availability flag *)
(* ===================================================================== *)

(** C1.  The flag only ever goes from true to false.  First part: along any
    sequence of [Get]/[Set]/[Delete] calls on any [Cache], cut at any point
    into [pre] and [post], every call returns, and a flag that is false
    after [pre] is false after [post].  Second part: when a call has made a
    call to the store that ended in a store-level failure, [Enabled()] is
    false afterwards, and every later sequence of calls returns the no-op
    results, leaves the [Cache] as it is and adds nothing to the trace of
    store calls. *)
Theorem availability_is_monotonic {E : Env} :
  (forall (pre post : list Op) (c : Cache) (w : World),
     exists o1 c1 w1 o2 c2 w2,
       Quiet.run pre c w = Done (o1, c1) w1 /\
       Quiet.run post c1 w1 = Done (o2, c2) w2 /\
       Quiet.run (pre ++ post)%list c w = Done ((o1 ++ o2)%list, c2) w2 /\
       (enabled c1 = false -> enabled c2 = false)) /\
  (forall (op : Op) (c c' : Cache) (w w' : World) (o : Out)
          (ev : Event Options),
     Quiet.call op c w = Done (o, c') w' ->
     calls w' = ev :: calls w ->
     store_failure ev = true ->
     Quiet.Enabled c' = false /\
     forall ops : list Op,
       Quiet.run ops c' w' = Done (map noop ops, c') w').
Proof.
  split.
  - intros pre post c w.
    destruct (run_spec pre c w) as (o1 & c1 & w1 & H1 & _).
    destruct (run_spec post c1 w1) as (o2 & c2 & w2 & H2 & _ & _ & _ & _ & F).
    exists o1, c1, w1, o2, c2, w2. rewrite run_app, H1, H2. auto.
  - intros op c c' w w' o ev Hcall Hev Hfail.
    assert (Hdis : Quiet.Enabled c' = false).
    { destruct (call_spec op c w) as (o0 & c0 & w0 & H0 & _ & Hc).
      rewrite H0 in Hcall. injection Hcall as -> -> ->.
      destruct Hc as [[Hsame _] | (ev' & Hev' & _ & ->)].
      - rewrite Hsame in Hev. now apply cons_neq_self in Hev.
      - rewrite Hev' in Hev. injection Hev as ->. now rewrite Hfail. }
    split; [assumption|]. intros ops. now apply run_disabled.
Qed.

(** A run of C1: after a refused read, the [Cache] is not enabled and three
    further calls do nothing. *)
Lemma availability_is_monotonic_witness :
  Quiet.Enabled (Stub.dead 2) = false /\
  Quiet.run (Stub.three 2) (Stub.dead 2)
            (Stub.after 2 Stub.get_refused (Stub.connected 2)) =
  Done (map noop (Stub.three 2), Stub.dead 2)
       (Stub.after 2 Stub.get_refused (Stub.connected 2)).
Proof.
  destruct (proj2 (@availability_is_monotonic (Stub.env 2))
              (@OpGet (Stub.env 2) context_Background "k" None)
              (Stub.live 2) (Stub.dead 2) (Stub.connected 2)
              (Stub.after 2 Stub.get_refused (Stub.connected 2))
              (@OutGet (Stub.env 2) false None None)
              Stub.get_refused
              eq_refl eq_refl eq_refl) as [H1 H2].
  split; [exact H1 | exact (H2 (Stub.three 2))].
Defined.

(** C2.  [Get] and the store.  On a [Cache] that is not enabled, [Get]
    returns [(false, nil)] and makes no call.  On an enabled one it makes one
    read; if the read reports the key absent ([redis.Nil]), [Get] returns
    [(false, nil)] and the [Cache] is as before; if the read reports any
    other error, [Get] returns [(false, nil)] and the flag is false
    afterwards.  The destination is left as it was in all three cases. *)
Theorem Get_store_errors {E : Env}
        (c : Cache) (ctx : Context) (key : string) (dest : Dest) (w : World) :
  (Quiet.Enabled c = false ->
   Quiet.Get c ctx key dest w = Done (false, nil_error, dest, c) w) /\
  (forall (cl : Client Options) (val : string) (err : error),
     Quiet.Enabled c = true ->
     client c = Some cl ->
     store_Get (calls w) cl ctx key = (val, err) ->
     (errors_Is err redis_Nil = true ->
      Quiet.Get c ctx key dest w =
      Done (false, nil_error, dest, c) (record (EvGet cl ctx key val err) w)) /\
     (err <> nil_error -> errors_Is err redis_Nil = false ->
      Quiet.Get c ctx key dest w =
      Done (false, nil_error, dest, set_enabled c false)
           (record (EvGet cl ctx key val err) w) /\
      enabled (set_enabled c false) = false)).
Proof.
  split.
  - apply Get_disabled.
  - intros cl val err En Hcl HG. unfold_go. rewrite En, Hcl; simpl.
    rewrite HG. split.
    + intros HN. now rewrite HN.
    + intros Hne HN. rewrite HN. destruct err as [e|]; [|contradiction].
      split; reflexivity.
Qed.

(** Runs of C2: a [Get] on a [Cache] that is not enabled, one for an absent
    key, and one that the network refuses. *)
Lemma Get_store_errors_witness :
  Quiet.Get (Stub.dead 9) context_Background "k" None (Stub.connected 9) =
  Done (false, None, None, Stub.dead 9) (Stub.connected 9) /\
  Quiet.Get (Stub.live 9) context_Background "k" None (Stub.connected 9) =
  Done (false, None, None, Stub.live 9)
       (Stub.after 9 Stub.get_absent (Stub.connected 9)) /\
  Quiet.Get (Stub.live 2) context_Background "k" None (Stub.connected 2) =
  Done (false, None, None, Stub.dead 2)
       (Stub.after 2 Stub.get_refused (Stub.connected 2)).
Proof.
  split; [|split].
  - apply (proj1 (@Get_store_errors (Stub.env 9) (Stub.dead 9)
                    context_Background "k" None (Stub.connected 9))).
    reflexivity.
  - apply (proj1 (proj2 (@Get_store_errors (Stub.env 9) (Stub.live 9)
                           context_Background "k" None (Stub.connected 9))
                        Stub.cl "" (Some redis_Nil)
                        eq_refl eq_refl eq_refl)).
    reflexivity.
  - apply (proj2 (proj2 (@Get_store_errors (Stub.env 2) (Stub.live 2)
                           context_Background "k" None (Stub.connected 2))
                        Stub.cl "" (Some Stub.refused)
                        eq_refl eq_refl eq_refl)).
    + discriminate.
    + reflexivity.
Defined.

(** C3.  [Set] on an enabled [Cache].  If [json.Marshal] fails, [Set]
    returns an error that wraps the encoder's, makes no call to the store
    and leaves the [Cache] as it is.  Otherwise it makes one write of the
    encoded bytes under [key] with expiration [c.ttl]; if the write fails,
    [Set] returns nil and the flag is false afterwards; if it succeeds,
    [Set] returns nil and the [Cache] is as before. *)
Theorem Set_outcomes {E : Env}
        (c : Cache) (ctx : Context) (key : string) (value : Value)
        (w : World) (cl : Client Options) :
  Quiet.Enabled c = true ->
  client c = Some cl ->
  (forall e : GoError,
     json_Marshal value = inr e ->
     Quiet.Set_ c ctx key value w =
     Done (Some (fmt_Errorf "marshal cache value: %w" e), c) w /\
     errors_Is (Some (fmt_Errorf "marshal cache value: %w" e)) e = true) /\
  (forall (data : bytes) (e : GoError),
     json_Marshal value = inl data ->
     store_Set (calls w) cl ctx key data (ttl c) = Some e ->
     Quiet.Set_ c ctx key value w =
     Done (nil_error, set_enabled c false)
          (record (EvSet cl ctx key data (ttl c) (Some e)) w) /\
     enabled (set_enabled c false) = false) /\
  (forall data : bytes,
     json_Marshal value = inl data ->
     store_Set (calls w) cl ctx key data (ttl c) = nil_error ->
     Quiet.Set_ c ctx key value w =
     Done (nil_error, c) (record (EvSet cl ctx key data (ttl c) nil_error) w)).
Proof.
  intros En Hcl. split; [|split].
  - intros e HM. split; [|apply errors_Is_wrapped].
    unfold_go. now rewrite En, HM.
  - intros data e HM HS. split; [|reflexivity].
    unfold_go. rewrite En, HM, Hcl; simpl. now rewrite HS.
  - intros data HM HS.
    unfold_go. rewrite En, HM, Hcl; simpl. now rewrite HS.
Qed.

(** Runs of C3: a [Set] of a value that cannot be encoded, one that the
    network refuses, and one that goes through. *)
Lemma Set_outcomes_witness :
  Quiet.Set_ (Stub.live 9) context_Background "k" None (Stub.connected 9) =
  Done (Some (fmt_Errorf "marshal cache value: %w"
                (errors_New "json: unsupported type: chan int")),
        Stub.live 9) (Stub.connected 9) /\
  Quiet.Set_ (Stub.live 2) context_Background "k" (Some [x31])
             (Stub.connected 2) =
  Done (None, Stub.dead 2)
       (Stub.after 2 (EvSet Stub.cl context_Background "k" [x31] 60000000000
                            (Some Stub.refused)) (Stub.connected 2)) /\
  Quiet.Set_ (Stub.live 9) context_Background "k" (Some [x31])
             (Stub.connected 9) =
  Done (None, Stub.live 9)
       (Stub.after 9 (Stub.set_done [x31]) (Stub.connected 9)).
Proof.
  split; [|split].
  - apply (proj1 (@Set_outcomes (Stub.env 9) (Stub.live 9) context_Background
                    "k" None (Stub.connected 9) Stub.cl eq_refl eq_refl)).
    reflexivity.
  - apply (proj1 (proj2 (@Set_outcomes (Stub.env 2) (Stub.live 2)
                           context_Background "k" (Some [x31])
                           (Stub.connected 2) Stub.cl eq_refl eq_refl))
                 [x31] Stub.refused eq_refl eq_refl).
  - apply (proj2 (proj2 (@Set_outcomes (Stub.env 9) (Stub.live 9)
                           context_Background "k" (Some [x31])
                           (Stub.connected 9) Stub.cl eq_refl eq_refl))
                 [x31] eq_refl eq_refl).
Defined.

(* ===================================================================== *)
(** ** Facts about [encoding/hex] *)
(* ===================================================================== *)

Lemma hex_Encode_length (src : bytes) :
  List.length (hex_Encode src) = (2 * List.length src)%nat.
Proof. induction src as [|v src IH]; simpl; [reflexivity | lia]. Qed.

Lemma hex_digits_of_byte (v : byte) :
  is_hex_digit (hextable_at (N.shiftr (Byte.to_N v) 4)) = true /\
  is_hex_digit (hextable_at (N.land (Byte.to_N v) 15)) = true.
Proof. destruct v; split; vm_compute; reflexivity. Qed.

Lemma hex_Encode_digits (src : bytes) :
  Forall (fun ch => is_hex_digit ch = true) (hex_Encode src).
Proof.
  induction src as [|v src IH]; simpl.
  - constructor.
  - destruct (hex_digits_of_byte v) as [Hhi Hlo].
    constructor; [assumption|]. constructor; assumption.
Qed.

Lemma string_of_list_ascii_length (l : list ascii) :
  String.length (string_of_list_ascii l) = List.length l.
Proof. induction l as [|a l IH]; simpl; congruence. Qed.

Lemma hex_EncodeToString_length (src : bytes) :
  String.length (hex_EncodeToString src) = (2 * List.length src)%nat.
Proof.
  unfold hex_EncodeToString.
  now rewrite string_of_list_ascii_length, hex_Encode_length.
Qed.

Lemma hex_EncodeToString_digits (src : bytes) :
  Forall (fun ch => is_hex_digit ch = true)
         (list_ascii_of_string (hex_EncodeToString src)).
Proof.
  unfold hex_EncodeToString. rewrite list_ascii_of_string_of_list_ascii.
  apply hex_Encode_digits.
Qed.

(* ===================================================================== *)
(** ** Construction *)
(* ===================================================================== *)

(** C4.  [NewCache] returns a [Cache] and a nil error on every input and
    in every state of the store; it never panics.  The [Cache] it returns is
    usable: every sequence of data calls on it returns, and so does
    [Close].  When the flag argument is false, the address is empty, the
    address does not parse, or the ping fails, the [Cache] is not enabled,
    so that data calls on it do nothing. *)
Theorem NewCache_never_fails {E : Env}
        (redisURL : string) (enabled : bool) (ttlSeconds : Z) (w : World) :
  exists (c : Cache) (w' : World),
    Quiet.NewCache redisURL enabled ttlSeconds w = Done (Some c, nil_error) w' /\
    (forall (ops : list Op) (w0 : World),
       exists outs c1 w1, Quiet.run ops c w0 = Done (outs, c1) w1) /\
    (forall w0 : World, exists r w1, Quiet.Close c w0 = Done r w1) /\
    (enabled = false \/ redisURL = "" \/
     (exists e, redis_ParseURL redisURL = inr e) \/
     (exists opt e,
        redis_ParseURL redisURL = inl opt /\
        let cl := mkClient (clients_built (calls w)) opt in
        store_Ping (EvNewClient cl :: calls w) cl
          (context_WithTimeout context_Background (5 * time_Second)) = Some e) ->
     Quiet.Enabled c = false /\
     forall (ops : list Op) (w0 : World),
       Quiet.run ops c w0 = Done (map noop ops, c) w0).
Proof.
  assert (U : forall c : Cache,
             (forall (ops : list Op) (w0 : World),
                exists outs c1 w1, Quiet.run ops c w0 = Done (outs, c1) w1) /\
             (forall w0 : World, exists r w1, Quiet.Close c w0 = Done r w1)).
  { intros c. split.
    - intros ops w0. destruct (run_spec ops c w0) as (o & c1 & w1 & H & _).
      now exists o, c1, w1.
    - intros w0. unfold_go. destruct (client c); do 2 eexists; reflexivity. }
  assert (D : forall c : Cache, Quiet.Enabled c = false ->
             Quiet.Enabled c = false /\
             forall (ops : list Op) (w0 : World),
               Quiet.run ops c w0 = Done (map noop ops, c) w0).
  { intros c H. split; [assumption|]. intros. now apply run_disabled. }
  unfold Quiet.NewCache.
  destruct enabled; simpl.
  2:{ do 2 eexists. split; [reflexivity|]. split; [apply U|].
      split; [apply U|]. intros _. now apply D. }
  destruct (String.eqb_spec redisURL "") as [Hu|Hu].
  { do 2 eexists. split; [reflexivity|]. split; [apply U|].
    split; [apply U|]. intros _. now apply D. }
  destruct (redis_ParseURL redisURL) as [opt|e] eqn:HP.
  2:{ do 2 eexists. split; [reflexivity|]. split; [apply U|].
      split; [apply U|]. intros _. now apply D. }
  unfold_go; simpl.
  destruct (store_Ping _ _ _) as [e|] eqn:Hping.
  - do 2 eexists. split; [reflexivity|]. split; [apply U|].
    split; [apply U|]. intros _. now apply D.
  - do 2 eexists. split; [reflexivity|]. split; [apply U|].
    split; [apply U|].
    intros [H | [H | [[e H] | (opt' & e & H & H')]]]; try discriminate.
    + contradiction.
    + injection H as <-. simpl in H'. rewrite Hping in H'. discriminate.
Qed.

(** C8.  [NewCache] with the flag argument false, whatever the address, and
    [NewCache] with an empty address: both return, without any call to the
    store, a [Cache] for which [Enabled()] is false and whose [client] is
    nil. *)
Theorem NewCache_disabled_by_config {E : Env}
        (addr : string) (ttlSeconds : Z) (w : World) :
  (exists c : Cache,
     Quiet.NewCache addr false ttlSeconds w = Done (Some c, nil_error) w /\
     Quiet.Enabled c = false /\ client c = None) /\
  (exists c : Cache,
     Quiet.NewCache "" true ttlSeconds w = Done (Some c, nil_error) w /\
     Quiet.Enabled c = false /\ client c = None).
Proof.
  split; eexists; (split; [reflexivity|]); split; reflexivity.
Qed.

(** C5.  [NewCache] with the flag argument true and a non-empty address
    that parses builds a client and pings it under a five-second timeout.
    If the ping fails, the client is closed (the error of [Close] is
    dropped) and the [Cache] returned has a nil [client] and is not
    enabled.  If the ping succeeds, the [Cache] returned holds the client,
    its flag is true and [Enabled()] is true.  In both cases [ttl] is
    [ttlSeconds] seconds, in 64-bit arithmetic. *)
Theorem NewCache_ping {E : Env}
        (redisURL : string) (ttlSeconds : Z) (w : World) (opt : Options) :
  redisURL <> "" ->
  redis_ParseURL redisURL = inl opt ->
  let cl := mkClient (clients_built (calls w)) opt in
  let ctx := context_WithTimeout context_Background 5000000000 in
  let w1 := record (EvNewClient cl) w in
  let lifetime := wrap64 (ttlSeconds * 1000000000) in
  (forall e : GoError,
     store_Ping (calls w1) cl ctx = Some e ->
     let w2 := record (EvPing cl ctx (Some e)) w1 in
     let c := mkCache None false lifetime in
     Quiet.NewCache redisURL true ttlSeconds w =
     Done (Some c, nil_error) (record (EvClose cl (store_Close (calls w2) cl)) w2) /\
     Quiet.Enabled c = false) /\
  (store_Ping (calls w1) cl ctx = nil_error ->
   let c := mkCache (Some cl) true lifetime in
   Quiet.NewCache redisURL true ttlSeconds w =
   Done (Some c, nil_error) (record (EvPing cl ctx nil_error) w1) /\
   Quiet.Enabled c = true).
Proof.
  intros Hu HP cl ctx w1 lifetime.
  unfold Quiet.NewCache. simpl.
  destruct (String.eqb_spec redisURL "") as [Hu'|_]; [contradiction|].
  rewrite HP. unfold_go. fold cl. simpl. fold ctx.
  split.
  - intros e Hping. simpl in Hping. rewrite Hping. simpl. split; reflexivity.
  - intros Hping. simpl in Hping. rewrite Hping. simpl. split; reflexivity.
Qed.

(** Runs of C5: [NewCache] when the ping is refused, and when it is
    answered. *)
Lemma NewCache_ping_witness :
  Quiet.NewCache Stub.url true 60 (Stub.start 1) =
  Done (Some (mkCache None false 60000000000), None)
       (Stub.after 1 (EvClose Stub.cl (Some Stub.refused))
          (Stub.after 1 (EvPing Stub.cl Stub.ping_ctx (Some Stub.refused))
             (Stub.after 1 (EvNewClient Stub.cl) (Stub.start 1)))) /\
  Quiet.NewCache Stub.url true 60 (Stub.start 2) =
  Done (Some (Stub.live 2), None) (Stub.connected 2).
Proof.
  split.
  - apply (proj1 (@NewCache_ping (Stub.env 1) Stub.url 60 (Stub.start 1)
                    "cache:6379" ltac:(discriminate) eq_refl)
                 Stub.refused eq_refl).
  - apply (proj2 (@NewCache_ping (Stub.env 2) Stub.url 60 (Stub.start 2)
                    "cache:6379" ltac:(discriminate) eq_refl)
                 eq_refl).
Defined.

(* ===================================================================== *)
(** ** Decoding in [Get] *)
(* ===================================================================== *)

(** C6.  [Get] on an enabled [Cache] whose read succeeds hands the value to
    [json.Unmarshal].  If decoding fails, [Get] returns false and an error
    that wraps the decoder's, and the [Cache] is as before, its flag still
    true.  If decoding succeeds, [Get] returns [(true, nil)], the
    destination holds what the decoder wrote, and the [Cache] is as
    before. *)
Theorem Get_decoding {E : Env}
        (c : Cache) (ctx : Context) (key : string) (dest : Dest) (w : World)
        (cl : Client Options) (val : string) :
  Quiet.Enabled c = true ->
  client c = Some cl ->
  store_Get (calls w) cl ctx key = (val, nil_error) ->
  let w1 := record (EvGet cl ctx key val nil_error) w in
  (forall (dest' : Dest) (e : GoError),
     json_Unmarshal (list_byte_of_string val) dest = (dest', Some e) ->
     Quiet.Get c ctx key dest w =
     Done (false, Some (fmt_Errorf "unmarshal cache value: %w" e), dest', c) w1 /\
     errors_Is (Some (fmt_Errorf "unmarshal cache value: %w" e)) e = true /\
     enabled c = true) /\
  (forall dest' : Dest,
     json_Unmarshal (list_byte_of_string val) dest = (dest', nil_error) ->
     Quiet.Get c ctx key dest w = Done (true, nil_error, dest', c) w1).
Proof.
  intros En Hcl HG w1.
  destruct (Enabled_true c En) as [Hflag _].
  split.
  - intros dest' e HU. split; [|split; [apply errors_Is_wrapped | exact Hflag]].
    unfold_go. rewrite En, Hcl; simpl. rewrite HG; simpl. now rewrite HU.
  - intros dest' HU.
    unfold_go. rewrite En, Hcl; simpl. rewrite HG; simpl. now rewrite HU.
Qed.

(** Runs of C6: a [Get] of a stored value that decodes, and of one that
    does not. *)
Lemma Get_decoding_witness :
  Quiet.Get (Stub.live 9) context_Background "k" None
            (Stub.after 9 (Stub.set_done [x31]) (Stub.connected 9)) =
  Done (true, None, Some [x31], Stub.live 9)
       (Stub.after 9 (EvGet Stub.cl context_Background "k" "1" None)
          (Stub.after 9 (Stub.set_done [x31]) (Stub.connected 9))) /\
  Quiet.Get (Stub.live 9) context_Background "k" None
            (Stub.after 9 (Stub.set_done []) (Stub.connected 9)) =
  Done (false,
        Some (fmt_Errorf "unmarshal cache value: %w"
                (errors_New "unexpected end of JSON input")),
        None, Stub.live 9)
       (Stub.after 9 (EvGet Stub.cl context_Background "k" "" None)
          (Stub.after 9 (Stub.set_done []) (Stub.connected 9))).
Proof.
  split.
  - apply (proj2 (@Get_decoding (Stub.env 9) (Stub.live 9) context_Background
                    "k" None
                    (Stub.after 9 (Stub.set_done [x31]) (Stub.connected 9))
                    Stub.cl "1" eq_refl eq_refl eq_refl)
                 (Some [x31]) eq_refl).
  - apply (proj1 (@Get_decoding (Stub.env 9) (Stub.live 9) context_Background
                    "k" None
                    (Stub.after 9 (Stub.set_done []) (Stub.connected 9))
                    Stub.cl "" eq_refl eq_refl eq_refl)
                 None (errors_New "unexpected end of JSON input") eq_refl).
Defined.

(* ===================================================================== *)
(** ** Key derivation *)
(* ===================================================================== *)



(* ===================================================================== *)
(** ** The two variants *)
(* ===================================================================== *)

Section Variants.
Context {E : Env}.

Lemma NewCache_equiv redisURL enabled ttlSeconds (w1 w2 : World) :
  same_calls w1 w2 ->
  Res_equiv (Quiet.NewCache redisURL enabled ttlSeconds w1)
            (Logged.NewCache redisURL enabled ttlSeconds w2).
Proof.
  same_trace w1 w2.
  unfold Quiet.NewCache, Logged.NewCache.
  destruct enabled; simpl; [|unfold_go; close_equiv].
  destruct (redisURL =? "")%string; [unfold_go; close_equiv|].
  unfold_go; simpl.
  destruct (redis_ParseURL redisURL) as [opt|e]; simpl; [|close_equiv].
  destruct (store_Ping _ _ _) as [e|]; close_equiv.
Qed.

Lemma Close_equiv (c : Cache) (w1 w2 : World) :
  same_calls w1 w2 -> Res_equiv (Quiet.Close c w1) (Logged.Close c w2).
Proof.
  same_trace w1 w2. unfold_go. destruct (client c); close_equiv.
Qed.

Lemma Get_equiv (c : Cache) ctx key dest (w1 w2 : World) :
  same_calls w1 w2 ->
  Res_equiv (Quiet.Get c ctx key dest w1) (Logged.Get c ctx key dest w2).
Proof.
  same_trace w1 w2. unfold_go.
  change (Logged.Enabled c) with (Quiet.Enabled c).
  destruct (Quiet.Enabled c); simpl; [|close_equiv].
  destruct (client c) as [cl|]; simpl; [|close_equiv].
  destruct (store_Get _ cl ctx key) as [val [e|]]; simpl.
  - destruct (chain_Is e redis_Nil); close_equiv.
  - destruct (json_Unmarshal _ _) as [dest' [e|]]; close_equiv.
Qed.

Lemma Set_equiv (c : Cache) ctx key value (w1 w2 : World) :
  same_calls w1 w2 ->
  Res_equiv (Quiet.Set_ c ctx key value w1) (Logged.Set_ c ctx key value w2).
Proof.
  same_trace w1 w2. unfold_go.
  change (Logged.Enabled c) with (Quiet.Enabled c).
  destruct (Quiet.Enabled c); simpl; [|close_equiv].
  destruct (json_Marshal value) as [data|e]; simpl; [|close_equiv].
  destruct (client c) as [cl|]; simpl; [|close_equiv].
  destruct (store_Set _ _ _ _ _ _) as [e|]; close_equiv.
Qed.

Lemma Delete_equiv (c : Cache) ctx key (w1 w2 : World) :
  same_calls w1 w2 ->
  Res_equiv (Quiet.Delete c ctx key w1) (Logged.Delete c ctx key w2).
Proof.
  same_trace w1 w2. unfold_go.
  change (Logged.Enabled c) with (Quiet.Enabled c).
  destruct (Quiet.Enabled c); simpl; [|close_equiv].
  destruct (client c) as [cl|]; simpl; [|close_equiv].
  destruct (store_Del _ _ _ _) as [e|]; close_equiv.
Qed.

Lemma call_equiv (op : Op) (c : Cache) (w1 w2 : World) :
  same_calls w1 w2 ->
  Res_equiv (Quiet.call op c w1) (Logged.call op c w2).
Proof.
  intros H. destruct op as [ctx key dest | ctx key value | ctx key];
    unfold Quiet.call, Logged.call, bind.
  - pose proof (Get_equiv c ctx key dest w1 w2 H) as G.
    destruct (Quiet.Get c ctx key dest w1) as [[[[f1 e1] d1] c1] v1|v1],
             (Logged.Get c ctx key dest w2) as [[[[f2 e2] d2] c2] v2|v2];
      simpl in *; try contradiction; [|assumption].
    destruct G as [[= -> -> -> ->] G]. auto.
  - pose proof (Set_equiv c ctx key value w1 w2 H) as G.
    destruct (Quiet.Set_ c ctx key value w1) as [[e1 c1] v1|v1],
             (Logged.Set_ c ctx key value w2) as [[e2 c2] v2|v2];
      simpl in *; try contradiction; [|assumption].
    destruct G as [[= -> ->] G]. auto.
  - pose proof (Delete_equiv c ctx key w1 w2 H) as G.
    destruct (Quiet.Delete c ctx key w1) as [[e1 c1] v1|v1],
             (Logged.Delete c ctx key w2) as [[e2 c2] v2|v2];
      simpl in *; try contradiction; [|assumption].
    destruct G as [[= -> ->] G]. auto.
Qed.

Lemma run_equiv (ops : list Op) (c : Cache) (w1 w2 : World) :
  same_calls w1 w2 ->
  Res_equiv (Quiet.run ops c w1) (Logged.run ops c w2).
Proof.
  revert c w1 w2. induction ops as [|op ops IH]; intros c w1 w2 H; simpl.
  - unfold ret. simpl. auto.
  - unfold bind.
    pose proof (call_equiv op c w1 w2 H) as G.
    destruct (Quiet.call op c w1) as [[o1 c1] v1|v1],
             (Logged.call op c w2) as [[o2 c2] v2|v2];
      simpl in *; try contradiction; [|assumption].
    destruct G as [[= -> ->] G].
    specialize (IH c2 v1 v2 G).
    destruct (Quiet.run ops c2 v1) as [[os1 d1] u1|u1],
             (Logged.run ops c2 v2) as [[os2 d2] u2|u2];
      simpl in *; try contradiction; [|assumption].
    destruct IH as [[= -> ->] IH]. auto.
Qed.

End Variants.

(** C9.  The variant without logging and the variant with logging do the
    same.  Started in worlds with the same trace of store calls (and any
    logs), [NewCache], [Close], [Get], [Set], [Delete], and every sequence of
    data calls end the same way in both: both return or both panic, with
    equal results, equal [Cache] afterwards and equal traces of store calls.
    [Enabled] and [GenerateCacheKey], which do not touch the world, are
    equal functions.  The logs are where the variants may differ. *)
Theorem variants_equivalent {E : Env} (w1 w2 : World) :
  same_calls w1 w2 ->
  (forall redisURL enabled ttlSeconds,
     Res_equiv (Quiet.NewCache redisURL enabled ttlSeconds w1)
               (Logged.NewCache redisURL enabled ttlSeconds w2)) /\
  (forall c : Cache, Quiet.Enabled c = Logged.Enabled c) /\
  (forall c : Cache, Res_equiv (Quiet.Close c w1) (Logged.Close c w2)) /\
  (forall c ctx key dest,
     Res_equiv (Quiet.Get c ctx key dest w1) (Logged.Get c ctx key dest w2)) /\
  (forall c ctx key value,
     Res_equiv (Quiet.Set_ c ctx key value w1)
               (Logged.Set_ c ctx key value w2)) /\
  (forall c ctx key,
     Res_equiv (Quiet.Delete c ctx key w1) (Logged.Delete c ctx key w2)) /\
  (forall (ops : list Op) (c : Cache),
     Res_equiv (Quiet.run ops c w1) (Logged.run ops c w2)) /\
  (forall prefix params,
     Quiet.GenerateCacheKey prefix params =
     Logged.GenerateCacheKey prefix params).
Proof.
  intros H. repeat split; intros.
  - now apply NewCache_equiv.
  - now apply Close_equiv.
  - now apply Get_equiv.
  - now apply Set_equiv.
  - now apply Delete_equiv.
  - now apply run_equiv.
Qed.

(** A run of C9: three calls in both variants, from worlds that differ in
    the log. *)
Lemma variants_equivalent_witness :
  Res_equiv (Quiet.run (Stub.three 3) (Stub.live 3) (Stub.connected 3))
            (Logged.run (Stub.three 3) (Stub.live 3)
                        (Stub.connected_logged 3)).
Proof.
  apply (@variants_equivalent (Stub.env 3) (Stub.connected 3)
           (Stub.connected_logged 3) eq_refl).
Defined.

(* ===================================================================== *)
(** ** What a failure leaves in place *)
(* ===================================================================== *)

(** C10.  When a data call has made a call to the store that ended in a
    store-level failure, the [Cache] afterwards is the [Cache] before with
    the flag cleared: [client] and [ttl] are as they were, and [client] is
    not nil.  [Close] on it, in any later world, closes that client and
    returns what the client's [Close] returned. *)
Theorem failure_keeps_client {E : Env}
        (op : Op) (c c' : Cache) (w w' : World) (o : Out)
        (ev : Event Options) :
  Quiet.call op c w = Done (o, c') w' ->
  calls w' = ev :: calls w ->
  store_failure ev = true ->
  exists cl : Client Options,
    client c = Some cl /\
    client c' = Some cl /\ ttl c' = ttl c /\ enabled c' = false /\
    forall w2 : World,
      Quiet.Close c' w2 =
      Done (store_Close (calls w2) cl)
           (record (EvClose cl (store_Close (calls w2) cl)) w2).
Proof.
  intros Hcall Hev Hfail.
  destruct (call_spec op c w) as (o0 & c0 & w0 & H0 & _ & Hc).
  rewrite H0 in Hcall. injection Hcall as -> -> ->.
  destruct Hc as [[Hsame _] | (ev' & Hev' & En & ->)].
  - rewrite Hsame in Hev. now apply cons_neq_self in Hev.
  - rewrite Hev' in Hev. injection Hev as ->. rewrite Hfail.
    destruct (Enabled_true c En) as [_ [cl Hcl]].
    exists cl. simpl. repeat split; try assumption.
    intros w2. unfold Quiet.Close. simpl. now rewrite Hcl.
Qed.

(** A run of C10: after a refused read the [Cache] still holds its client,
    and [Close] closes it and returns the client's error. *)
Lemma failure_keeps_client_witness :
  Quiet.Close (Stub.dead 2)
              (Stub.after 2 Stub.get_refused (Stub.connected 2)) =
  Done (Some Stub.refused)
       (Stub.after 2 (EvClose Stub.cl (Some Stub.refused))
          (Stub.after 2 Stub.get_refused (Stub.connected 2))).
Proof.
  destruct (@failure_keeps_client (Stub.env 2)
              (@OpGet (Stub.env 2) context_Background "k" None)
              (Stub.live 2) (Stub.dead 2) (Stub.connected 2)
              (Stub.after 2 Stub.get_refused (Stub.connected 2))
              (@OutGet (Stub.env 2) false None None)
              Stub.get_refused eq_refl eq_refl eq_refl)
    as (cl & Hcl & _ & _ & _ & Hclose).
  injection Hcl as <-. apply Hclose.
Defined.

(* ===================================================================== *)
(** ** More runs on the test double *)
(* ===================================================================== *)

(** [NewCache] with an address that does not parse makes no call. *)
Example NewCache_bad_url :
  Quiet.NewCache "cache:6379" true 60 (Stub.start 9) =
  Done (Some (mkCache None false 60000000000), None) (Stub.start 9).
Proof. reflexivity. Qed.

(** The lifetime wraps around in 64 bits. *)
Example NewCache_ttl_wraps :
  Quiet.NewCache "" false 9223372037 (Stub.start 9) =
  Done (Some (mkCache None false (-9223372036709551616)), None) (Stub.start 9).
Proof. reflexivity. Qed.

(** The variant with logging says why the cache is off. *)
Example Logged_NewCache_refused :
  match Logged.NewCache Stub.url true 60 (Stub.start 1) with
  | Done (Some c, None) w =>
      c = mkCache None false 60000000000 /\
      map log_format (logs w) =
      ["[Redis] Connection failed: %v";
       "[Redis] Initializing cache with URL: %s, TTL: %d seconds"]
  | _ => False
  end.
Proof. split; reflexivity. Qed.

Example hex_EncodeToString_run :
  hex_EncodeToString [x00; xff; x1a; xa1] = "00ff1aa1".
Proof. reflexivity. Qed.

Example GenerateCacheKey_fallback :
  @Quiet.GenerateCacheKey (Stub.env 0) "user" None = "user:fallback".
Proof. reflexivity. Qed.

Example GenerateCacheKey_hashed :
  @Quiet.GenerateCacheKey (Stub.env 0) "user" (Some [x7b; x7d]) =
  "user:f8f9fafbfcfdfeff000102030405060708090a0b0c0d0e0f1011121314151617".
Proof. reflexivity. Qed.

(** Write, read back, delete, read again, with a healthy store. *)
Example round_trip :
  Quiet.run (Stub.three 9 ++
             [@OpGet (Stub.env 9) context_Background "k" None])%list
            (Stub.live 9) (Stub.connected 9) =
  Done ([@OutSet (Stub.env 9) None; @OutGet (Stub.env 9) true None (Some [x31]);
         @OutDelete (Stub.env 9) None; @OutGet (Stub.env 9) false None None],
        Stub.live 9)
       (Stub.after 9 Stub.get_absent
          (Stub.after 9 (EvDel Stub.cl context_Background "k" None)
             (Stub.after 9 (EvGet Stub.cl context_Background "k" "1" None)
                (Stub.after 9 (Stub.set_done [x31]) (Stub.connected 9))))).
Proof. reflexivity. Qed.


(* ===================================================================== *)
(** ** Further properties: what the data operations return *)
(* ===================================================================== *)

Section CallFacts.
Context {E : Env}.

(** One call, with the store call it makes spelled out. *)
Lemma call_event (op : Op) (c c' : Cache) (w w' : World) (o : Out) :
  Quiet.call op c w = Done (o, c') w' ->
  (calls w' = calls w /\ c' = c) \/
  (exists ev, calls w' = ev :: calls w /\
              event_for c op ev /\
              Quiet.Enabled c = true /\
              c' = if store_failure ev then set_enabled c false else c).
Proof.
  destruct (Quiet.Enabled c) eqn:En.
  2:{ rewrite call_disabled by assumption. intros [= <- <- <-]. auto. }
  destruct (Enabled_true c En) as [Hf [cl Hcl]].
  destruct op as [ctx key dest | ctx key value | ctx key];
    unfold Quiet.call; unfold_go; rewrite En, ?Hcl; simpl.
  - destruct (store_Get (calls w) cl ctx key) as [val [e|]] eqn:HG; simpl.
    + destruct (chain_Is e redis_Nil) eqn:HN; simpl;
        intros [= <- <- <-]; right; eexists;
        (split; [reflexivity|]); simpl; rewrite HN; auto.
    + destruct (json_Unmarshal (list_byte_of_string val) dest)
        as [dest' [ue|]]; simpl;
        intros [= <- <- <-]; right; eexists;
        (split; [reflexivity|]); simpl; auto.
  - destruct (json_Marshal value) as [data|e] eqn:HM; simpl.
    + destruct (store_Set (calls w) cl ctx key data (ttl c)) as [e|] eqn:HS;
        simpl; intros [= <- <- <-]; right; eexists;
        (split; [reflexivity|]); simpl; auto 10.
    + intros [= <- <- <-]. auto.
  - destruct (store_Del (calls w) cl ctx key) as [e|] eqn:HD; simpl;
      intros [= <- <- <-]; right; eexists;
      (split; [reflexivity|]); simpl; auto.
Qed.

(** The error of one call is a codec error, and leaves the [Cache] alone. *)
Lemma call_error (op : Op) (c c' : Cache) (w w' : World) (o : Out)
      (e : GoError) :
  Quiet.call op c w = Done (o, c') w' ->
  Out_error o = Some e ->
  codec_error op e /\ c' = c.
Proof.
  destruct (Quiet.Enabled c) eqn:En.
  2:{ rewrite call_disabled by assumption. intros [= <- <- <-].
      destruct op; discriminate. }
  destruct (Enabled_true c En) as [Hf [cl Hcl]].
  destruct op as [ctx key dest | ctx key value | ctx key];
    unfold Quiet.call; unfold_go; rewrite En, ?Hcl; simpl.
  - destruct (store_Get (calls w) cl ctx key) as [val [e1|]]; simpl.
    + destruct (chain_Is e1 redis_Nil); simpl; intros [= <- <- <-];
        discriminate.
    + destruct (json_Unmarshal (list_byte_of_string val) dest)
        as [dest' [ue|]] eqn:HU; simpl; intros [= <- <- <-];
        [|discriminate].
      simpl. intros [= <-]. split; [|reflexivity].
      exists (list_byte_of_string val), dest', ue. auto.
  - destruct (json_Marshal value) as [data|e1] eqn:HM; simpl.
    + destruct (store_Set (calls w) cl ctx key data (ttl c)) as [e2|];
        simpl; intros [= <- <- <-]; discriminate.
    + intros [= <- <- <-]. simpl. intros [= <-]. split; [|reflexivity].
      exists e1. auto.
  - destruct (store_Del (calls w) cl ctx key) as [e1|]; simpl;
      intros [= <- <- <-]; discriminate.
Qed.

(** A run, with the store calls it makes spelled out. *)
Lemma run_trace (ops : list Op) (c c' : Cache) (w w' : World)
      (outs : list Out) :
  Quiet.run ops c w = Done (outs, c') w' ->
  exists new : list (Event Options),
    calls w' = (new ++ calls w)%list /\
    (List.length new <= List.length ops)%nat /\
    Forall (fun ev => exists op, In op ops /\ event_for c op ev) new /\
    Forall (fun ev => store_failure ev = false) (tl new) /\
    c' = after_calls c new.
Proof.
  revert c c' w w' outs.
  induction ops as [|op ops IH]; intros c c' w w' outs; simpl.
  - unfold ret. intros [= <- <- <-]. exists []. simpl. auto.
  - unfold bind.
    destruct (Quiet.call op c w) as [[o c1] w1|] eqn:Hc; [|discriminate].
    destruct (Quiet.run ops c1 w1) as [[os c2] w2|] eqn:Hr; [|discriminate].
    unfold ret. intros [= <- <- <-].
    destruct (call_event _ _ _ _ _ _ Hc) as [[Hsame ->] | (ev & Hev & Hfor & En & ->)].
    + destruct (IH _ _ _ _ _ Hr) as (new & Hn & Hlen & Hall & Htl & Hc').
      exists new. rewrite <- Hsame. repeat split; auto.
      eapply Forall_impl; [|exact Hall].
      intros a (op' & Hin & Ha). exists op'. auto.
    + destruct (store_failure ev) eqn:Hf.
      * rewrite run_disabled in Hr by reflexivity.
        injection Hr as <- <- <-.
        exists [ev]. simpl. rewrite Hf. repeat split; auto; try lia.
        constructor; [|constructor]. exists op. auto.
      * destruct (IH _ _ _ _ _ Hr) as (new & Hn & Hlen & Hall & Htl & Hc').
        exists (new ++ [ev])%list. rewrite Hn, Hev, <- app_assoc. simpl.
        split; [reflexivity|]. split; [rewrite length_app; simpl; lia|].
        split; [|split].
        -- apply Forall_app. split.
           ++ eapply Forall_impl; [|exact Hall].
              intros a (op' & Hin & Ha). exists op'. auto.
           ++ constructor; [|constructor]. exists op. auto.
        -- destruct new as [|x r]; simpl; [constructor|].
           apply Forall_app. split; [exact Htl|].
           constructor; [exact Hf | constructor].
        -- rewrite Hc'. destruct new as [|x r]; simpl; [now rewrite Hf|].
           reflexivity.
Qed.

End CallFacts.

(** X1.  [Delete].  On a [Cache] that is not enabled it returns nil and
    makes no call.  On an enabled one it makes one delete of the key on the
    client of the [Cache]; whether or not the store reports an error,
    [Delete] returns nil; the flag is cleared exactly when the store
    reported an error, and nothing else in the [Cache] changes. *)
Theorem Delete_outcomes {E : Env}
        (c : Cache) (ctx : Context) (key : string) (w : World) :
  (Quiet.Enabled c = false ->
   Quiet.Delete c ctx key w = Done (nil_error, c) w) /\
  (forall cl : Client Options,
     Quiet.Enabled c = true ->
     client c = Some cl ->
     (forall e : GoError,
        store_Del (calls w) cl ctx key = Some e ->
        Quiet.Delete c ctx key w =
        Done (nil_error, set_enabled c false)
             (record (EvDel cl ctx key (Some e)) w)) /\
     (store_Del (calls w) cl ctx key = nil_error ->
      Quiet.Delete c ctx key w =
      Done (nil_error, c) (record (EvDel cl ctx key nil_error) w))).
Proof.
  split; [apply Delete_disabled|].
  intros cl En Hcl. split.
  - intros e HD. unfold_go. rewrite En, Hcl; simpl. now rewrite HD.
  - intros HD. unfold_go. rewrite En, Hcl; simpl. now rewrite HD.
Qed.

(** Runs of X1: a [Delete] that the network refuses, and one that goes
    through. *)
Lemma Delete_outcomes_witness :
  Quiet.Delete (Stub.live 2) context_Background "k" (Stub.connected 2) =
  Done (None, Stub.dead 2)
       (Stub.after 2 (EvDel Stub.cl context_Background "k"
                            (Some Stub.refused)) (Stub.connected 2)) /\
  Quiet.Delete (Stub.live 9) context_Background "k" (Stub.connected 9) =
  Done (None, Stub.live 9)
       (Stub.after 9 (EvDel Stub.cl context_Background "k" None)
                   (Stub.connected 9)).
Proof.
  split.
  - apply (proj1 (proj2 (@Delete_outcomes (Stub.env 2) (Stub.live 2)
                           context_Background "k" (Stub.connected 2))
                        Stub.cl eq_refl eq_refl)
                 Stub.refused eq_refl).
  - apply (proj2 (proj2 (@Delete_outcomes (Stub.env 9) (Stub.live 9)
                           context_Background "k" (Stub.connected 9))
                        Stub.cl eq_refl eq_refl)
                 eq_refl).
Defined.

(** X2.  What a result of [Get] tells the caller, for any [Cache] and any
    store.  If [found] is true, the error is nil, the [Cache] is as before,
    and the call made one read that succeeded and whose value decoded into
    the destination.  If the error is not nil, [found] is false, the
    [Cache] is as before, and the error wraps the decoder's error on a read
    that succeeded.  If the destination changed, a read succeeded.  If the
    [Cache] changed, the result is [(false, nil)], the destination is
    untouched, the read failed with an error other than [redis.Nil], and
    the only change is the cleared flag. *)
Theorem Get_results {E : Env}
        (c c' : Cache) (ctx : Context) (key : string) (dest dest' : Dest)
        (w w' : World) (found : bool) (err : error) :
  Quiet.Get c ctx key dest w = Done (found, err, dest', c') w' ->
  (found = true ->
   err = nil_error /\ c' = c /\
   exists cl val,
     client c = Some cl /\
     calls w' = EvGet cl ctx key val nil_error :: calls w /\
     json_Unmarshal (list_byte_of_string val) dest = (dest', nil_error)) /\
  (forall e : GoError,
     err = Some e ->
     found = false /\ c' = c /\
     exists cl val e0,
       e = fmt_Errorf "unmarshal cache value: %w" e0 /\
       calls w' = EvGet cl ctx key val nil_error :: calls w /\
       json_Unmarshal (list_byte_of_string val) dest = (dest', Some e0)) /\
  (dest' <> dest ->
   exists cl val, calls w' = EvGet cl ctx key val nil_error :: calls w) /\
  (c' <> c ->
   found = false /\ err = nil_error /\ dest' = dest /\
   c' = set_enabled c false /\
   exists cl val e,
     calls w' = EvGet cl ctx key val (Some e) :: calls w /\
     chain_Is e redis_Nil = false).
Proof.
  unfold_go. destruct (Quiet.Enabled c) eqn:En; simpl.
  2:{ intros [= <- <- <- <- <-]. repeat split; try discriminate;
      intros; try contradiction; congruence. }
  destruct (Enabled_true c En) as [_ [cl Hcl]]. rewrite Hcl.
  destruct (store_Get (calls w) cl ctx key) as [val [e1|]] eqn:HG; simpl.
  - destruct (chain_Is e1 redis_Nil) eqn:HN; simpl;
      intros [= <- <- <- <- <-]; repeat split;
      try discriminate; intros; try contradiction; try congruence.
    exists cl, val, e1. auto.
  - destruct (json_Unmarshal (list_byte_of_string val) dest)
      as [d [ue|]] eqn:HU; simpl; intros [= <- <- <- <- <-];
      repeat split; try discriminate; intros; try contradiction;
      try congruence.
    + exists cl, val, ue. injection H as <-. auto.
    + exists cl, val. auto.
    + exists cl, val. auto.
    + exists cl, val. auto.
Qed.

(** A run of X2: a hit on the test double. *)
Lemma Get_results_witness :
  (@None GoError) = nil_error /\ Stub.live 9 = Stub.live 9 /\
  exists cl val,
    client (Stub.live 9) = Some cl /\
    calls (Stub.after 9 (EvGet Stub.cl context_Background "k" "1" None)
             (Stub.after 9 (Stub.set_done [x31]) (Stub.connected 9))) =
    EvGet cl context_Background "k" val nil_error
      :: calls (Stub.after 9 (Stub.set_done [x31]) (Stub.connected 9)) /\
    @json_Unmarshal (Stub.env 9) (list_byte_of_string val) None =
    (Some [x31], nil_error).
Proof.
  apply (proj1 (@Get_results (Stub.env 9) (Stub.live 9) (Stub.live 9)
                  context_Background "k" None (Some [x31])
                  (Stub.after 9 (Stub.set_done [x31]) (Stub.connected 9))
                  (Stub.after 9 (EvGet Stub.cl context_Background "k" "1" None)
                     (Stub.after 9 (Stub.set_done [x31]) (Stub.connected 9)))
                  true None eq_refl)
               eq_refl).
Defined.

(** X3.  No error of the store reaches a caller.  In any sequence of data
    calls on any [Cache], an error returned by a call is the error of
    [json.Unmarshal] (for [Get]) or of [json.Marshal] (for [Set]), wrapped;
    [Delete] returns nil. *)
Theorem store_errors_are_swallowed {E : Env}
        (ops : list Op) (c c' : Cache) (w w' : World) (outs : list Out) :
  Quiet.run ops c w = Done (outs, c') w' ->
  Forall2 (fun op o => forall e, Out_error o = Some e -> codec_error op e)
          ops outs.
Proof.
  revert c c' w w' outs.
  induction ops as [|op ops IH]; intros c c' w w' outs; simpl.
  - unfold ret. intros [= <- <- <-]. constructor.
  - unfold bind.
    destruct (Quiet.call op c w) as [[o c1] w1|] eqn:Hc; [|discriminate].
    destruct (Quiet.run ops c1 w1) as [[os c2] w2|] eqn:Hr; [|discriminate].
    unfold ret. intros [= <- <- <-]. constructor.
    + intros e He. exact (proj1 (call_error _ _ _ _ _ _ _ Hc He)).
    + exact (IH _ _ _ _ _ Hr).
Qed.

(** A run of X3: the store refuses a write, a read and a delete; the
    caller sees no error. *)
Lemma store_errors_are_swallowed_witness :
  Forall2 (fun op o => forall e, Out_error o = Some e -> codec_error op e)
          (Stub.three 2) (map noop (Stub.three 2)).
Proof.
  apply (@store_errors_are_swallowed (Stub.env 2) (Stub.three 2)
           (Stub.live 2) (Stub.dead 2) (Stub.connected 2)
           (Stub.after 2 (EvSet Stub.cl context_Background "k" [x31]
                                60000000000 (Some Stub.refused))
                       (Stub.connected 2))
           (map noop (Stub.three 2)) eq_refl).
Defined.

(** X4.  A [Cache] sees at most one store-level failure.  The store calls
    made by any sequence of data calls are at most one per call, and only
    the last of them can be a store-level failure; the [Cache] afterwards
    is the [Cache] before, with the flag cleared exactly when that last
    call failed. *)
Theorem at_most_one_failure {E : Env}
        (ops : list Op) (c c' : Cache) (w w' : World) (outs : list Out) :
  Quiet.run ops c w = Done (outs, c') w' ->
  exists new : list (Event Options),
    calls w' = (new ++ calls w)%list /\
    (List.length new <= List.length ops)%nat /\
    (List.length (filter store_failure new) <= 1)%nat /\
    Forall (fun ev => store_failure ev = false) (tl new) /\
    c' = after_calls c new.
Proof.
  intros H.
  destruct (run_trace _ _ _ _ _ _ H) as (new & Hn & Hlen & _ & Htl & Hc).
  exists new. repeat split; auto.
  destruct new as [|ev rest]; simpl in *; [lia|].
  assert (R : filter store_failure rest = []).
  { clear -Htl. induction Htl as [|x l Hx _ IHl]; simpl; [reflexivity|].
    now rewrite Hx. }
  destruct (store_failure ev); simpl; rewrite R; simpl; lia.
Qed.

(** A run of X4: a write goes through, the read after it is refused, the
    delete after that makes no call. *)
Lemma at_most_one_failure_witness :
  exists new : list (Event string),
    calls (Stub.after 3 (EvGet Stub.cl context_Background "k" ""
                               (Some Stub.refused))
             (Stub.after 3 (Stub.set_done [x31]) (Stub.connected 3))) =
    (new ++ calls (Stub.connected 3))%list /\
    (List.length new <= 3)%nat /\
    (List.length (filter (@store_failure (Stub.env 3)) new) <= 1)%nat /\
    Forall (fun ev => @store_failure (Stub.env 3) ev = false) (tl new) /\
    Stub.dead 3 = after_calls (Stub.live 3) new.
Proof.
  apply (@at_most_one_failure (Stub.env 3) (Stub.three 3)
           (Stub.live 3) (Stub.dead 3) (Stub.connected 3)
           (Stub.after 3 (EvGet Stub.cl context_Background "k" ""
                                (Some Stub.refused))
              (Stub.after 3 (Stub.set_done [x31]) (Stub.connected 3)))
           [@OutSet (Stub.env 3) None; @OutGet (Stub.env 3) false None None;
            @OutDelete (Stub.env 3) None]
           eq_refl).
Defined.

(** X5.  The data operations only read, write and delete, on the client of
    the [Cache].  Every store call made by a sequence of data calls is the
    call of one of them: on the client the [Cache] holds, under the
    caller's context and key; a write carries the bytes [json.Marshal]
    gave for the caller's value and the [ttl] of the [Cache].  No data call
    builds, pings or closes a client. *)
Theorem data_calls_use_own_client {E : Env}
        (ops : list Op) (c c' : Cache) (w w' : World) (outs : list Out) :
  Quiet.run ops c w = Done (outs, c') w' ->
  exists new : list (Event Options),
    calls w' = (new ++ calls w)%list /\
    Forall (fun ev => exists op, In op ops /\ event_for c op ev) new /\
    Forall (fun ev => match ev with
                      | EvNewClient _ | EvPing _ _ _ | EvClose _ _ => False
                      | _ => True
                      end) new.
Proof.
  intros H.
  destruct (run_trace _ _ _ _ _ _ H) as (new & Hn & _ & Hall & _).
  exists new. repeat split; auto.
  eapply Forall_impl; [|exact Hall].
  intros ev (op & _ & Hev). destruct op, ev; simpl in Hev; tauto.
Qed.

(** A run of X5 on the test double. *)
Lemma data_calls_use_own_client_witness :
  exists new : list (Event string),
    calls (Stub.after 3 (EvGet Stub.cl context_Background "k" ""
                               (Some Stub.refused))
             (Stub.after 3 (Stub.set_done [x31]) (Stub.connected 3))) =
    (new ++ calls (Stub.connected 3))%list /\
    Forall (fun ev => exists op, In op (Stub.three 3) /\
                                 event_for (Stub.live 3) op ev) new /\
    Forall (fun ev : Event string =>
              match ev with
              | EvNewClient _ | EvPing _ _ _ | EvClose _ _ => False
              | _ => True
              end) new.
Proof.
  apply (@data_calls_use_own_client (Stub.env 3) (Stub.three 3)
           (Stub.live 3) (Stub.dead 3) (Stub.connected 3)
           (Stub.after 3 (EvGet Stub.cl context_Background "k" ""
                                (Some Stub.refused))
              (Stub.after 3 (Stub.set_done [x31]) (Stub.connected 3)))
           [@OutSet (Stub.env 3) None; @OutGet (Stub.env 3) false None None;
            @OutDelete (Stub.env 3) None]
           eq_refl).
Defined.

(* ===================================================================== *)
(** ** Further properties: construction and shutdown *)
(* ===================================================================== *)

(** What [NewCache] can return, and the store calls it has made by then. *)
Lemma NewCache_cases {E : Env}
      (redisURL : string) (enabled : bool) (ttlSeconds : Z)
      (w w' : World) (c : Cache) :
  Quiet.NewCache redisURL enabled ttlSeconds w = Done (Some c, nil_error) w' ->
  let lifetime := wrap64 (ttlSeconds * 1000000000) in
  let ctx := context_WithTimeout context_Background 5000000000 in
  (c = mkCache None false lifetime /\
   (w' = w \/
    exists cl e r,
      calls w' = EvClose cl r :: EvPing cl ctx (Some e) :: EvNewClient cl
                         :: calls w)) \/
  (exists cl,
     c = mkCache (Some cl) true lifetime /\
     calls w' = EvPing cl ctx nil_error :: EvNewClient cl :: calls w).
Proof.
  unfold Quiet.NewCache.
  destruct enabled; simpl; [|unfold_go; intros [= <- <-]; auto].
  destruct (redisURL =? "")%string; [unfold_go; intros [= <- <-]; auto|].
  destruct (redis_ParseURL redisURL) as [opt|e];
    [|unfold_go; intros [= <- <-]; auto].
  unfold_go; simpl.
  destruct (store_Ping _ _ _) as [e|]; simpl; intros [= <- <-].
  - left. split; [reflexivity|]. right. do 3 eexists. reflexivity.
  - right. eexists. split; reflexivity.
Qed.

(** X6.  The flag is only ever true on a [Cache] that holds a client.  This
    holds for the [Cache] that [NewCache] returns and after any sequence of
    data calls on it, so that [Enabled()] is then just the flag. *)
Theorem flag_implies_client {E : Env}
        (redisURL : string) (enabled0 : bool) (ttlSeconds : Z)
        (w w1 w2 w3 : World) (c c' : Cache)
        (ops : list Op) (outs : list Out) :
  Quiet.NewCache redisURL enabled0 ttlSeconds w = Done (Some c, nil_error) w1 ->
  Quiet.run ops c w2 = Done (outs, c') w3 ->
  (enabled c' = true -> client c' <> None) /\
  Quiet.Enabled c' = enabled c'.
Proof.
  intros HN HR.
  destruct (run_spec ops c w2) as (o & c1 & w4 & H & _ & _ & Hcl & _ & Hmono).
  rewrite H in HR. injection HR as <- <- <-.
  unfold Quiet.Enabled. rewrite Hcl.
  destruct (NewCache_cases _ _ _ _ _ _ HN) as [[-> _] | (cl & -> & _)];
    simpl in *.
  - rewrite (Hmono eq_refl). split; [discriminate | reflexivity].
  - split; [discriminate | apply andb_true_r].
Qed.

(** A run of X6: construction, then three calls of which the second is
    refused. *)
Lemma flag_implies_client_witness :
  (enabled (Stub.dead 3) = true -> client (Stub.dead 3) <> None) /\
  Quiet.Enabled (Stub.dead 3) = enabled (Stub.dead 3).
Proof.
  apply (@flag_implies_client (Stub.env 3) Stub.url true 60
           (Stub.start 3) (Stub.connected 3) (Stub.connected 3)
           (Stub.after 3 (EvGet Stub.cl context_Background "k" ""
                                (Some Stub.refused))
              (Stub.after 3 (Stub.set_done [x31]) (Stub.connected 3)))
           (Stub.live 3) (Stub.dead 3) (Stub.three 3)
           [@OutSet (Stub.env 3) None; @OutGet (Stub.env 3) false None None;
            @OutDelete (Stub.env 3) None]
           eq_refl eq_refl).
Defined.

(** X7.  [NewCache] followed by [Close].  If the [Cache] returned is not
    enabled, it holds no client, [Close] on it makes no call and returns
    nil, and [NewCache] either made no call at all or built one client,
    pinged it and closed it itself; an address that does not parse leads to
    no call.  If the [Cache] returned is enabled, [NewCache] built and
    pinged one client and did not close it, and [Close] closes that client
    and returns its error. *)
Theorem NewCache_then_Close {E : Env}
        (redisURL : string) (enabled0 : bool) (ttlSeconds : Z)
        (w w1 : World) (c : Cache) :
  Quiet.NewCache redisURL enabled0 ttlSeconds w = Done (Some c, nil_error) w1 ->
  let ctx := context_WithTimeout context_Background 5000000000 in
  (Quiet.Enabled c = false ->
   client c = None /\
   (forall w2 : World, Quiet.Close c w2 = Done nil_error w2) /\
   (w1 = w \/
    exists cl e r,
      calls w1 = EvClose cl r :: EvPing cl ctx (Some e) :: EvNewClient cl
                         :: calls w) /\
   (forall e, redis_ParseURL redisURL = inr e -> w1 = w)) /\
  (Quiet.Enabled c = true ->
   exists cl,
     client c = Some cl /\
     calls w1 = EvPing cl ctx nil_error :: EvNewClient cl :: calls w /\
     forall w2 : World,
       Quiet.Close c w2 =
       Done (store_Close (calls w2) cl)
            (record (EvClose cl (store_Close (calls w2) cl)) w2)).
Proof.
  intros HN ctx.
  destruct (NewCache_cases _ _ _ _ _ _ HN) as [[-> Hw] | (cl & -> & Hw)].
  - split; [|discriminate]. intros _. repeat split; auto.
    intros e HP. revert HN. unfold Quiet.NewCache. rewrite HP.
    destruct (negb enabled0 || (redisURL =? "")%string);
      unfold_go; now intros [= <-].
  - split; [discriminate|]. intros _. exists cl. repeat split; auto.
Qed.

(** Runs of X7: [NewCache] with a refused ping, then [Close]; and with an
    answered ping, then [Close]. *)
Lemma NewCache_then_Close_witness :
  (forall w2 : @World (Stub.env 1),
     Quiet.Close (mkCache None false 60000000000) w2 = Done nil_error w2) /\
  exists cl,
    client (Stub.live 2) = Some cl /\
    calls (Stub.connected 2) =
    EvPing cl Stub.ping_ctx nil_error :: EvNewClient cl
           :: calls (Stub.start 2) /\
    forall w2 : @World (Stub.env 2),
      Quiet.Close (Stub.live 2) w2 =
      Done (@store_Close (Stub.env 2) (calls w2) cl)
           (Stub.after 2 (EvClose cl (@store_Close (Stub.env 2) (calls w2) cl))
                       w2).
Proof.
  split.
  - apply (proj1 (@NewCache_then_Close (Stub.env 1) Stub.url true 60
                    (Stub.start 1)
                    (Stub.after 1 (EvClose Stub.cl (Some Stub.refused))
                       (Stub.after 1 (EvPing Stub.cl Stub.ping_ctx
                                             (Some Stub.refused))
                          (Stub.after 1 (EvNewClient Stub.cl)
                                      (Stub.start 1))))
                    (mkCache None false 60000000000) eq_refl)
                 eq_refl).
  - apply (proj2 (@NewCache_then_Close (Stub.env 2) Stub.url true 60
                    (Stub.start 2) (Stub.connected 2) (Stub.live 2) eq_refl)
                 eq_refl).
Defined.

(** X8.  The lifetime.  For [ttlSeconds] between -9223372036 and
    9223372036 the product with [time.Second] does not overflow: the
    [Cache] that [NewCache] returns has [ttl] equal to [ttlSeconds] times
    10^9 nanoseconds on every path, the [ttl] is still that after any
    sequence of data calls, and every write such a sequence makes carries it
    as its expiration. *)
Theorem configured_ttl_reaches_store {E : Env}
        (redisURL : string) (enabled0 : bool) (ttlSeconds : Z)
        (w w1 w2 w3 : World) (c c' : Cache)
        (ops : list Op) (outs : list Out) :
  -9223372036 <= ttlSeconds <= 9223372036 ->
  Quiet.NewCache redisURL enabled0 ttlSeconds w = Done (Some c, nil_error) w1 ->
  Quiet.run ops c w2 = Done (outs, c') w3 ->
  ttl c = ttlSeconds * 1000000000 /\
  ttl c' = ttlSeconds * 1000000000 /\
  exists new : list (Event Options),
    calls w3 = (new ++ calls w2)%list /\
    forall cl ctx key data expiration r,
      In (EvSet cl ctx key data expiration r) new ->
      expiration = ttlSeconds * 1000000000.
Proof.
  intros Hrange HN HR.
  assert (Ht : ttl c = ttlSeconds * 1000000000).
  { assert (W : wrap64 (ttlSeconds * 1000000000) = ttlSeconds * 1000000000).
    { unfold wrap64.
      rewrite Z.mod_small; [lia|].
      change (2 ^ 63) with 9223372036854775808.
      change (2 ^ 64) with 18446744073709551616. lia. }
    destruct (NewCache_cases _ _ _ _ _ _ HN) as [[-> _] | (cl & -> & _)];
      simpl; exact W. }
  destruct (run_spec ops c w2) as (o & c1 & w4 & H & _ & _ & _ & Httl & _).
  rewrite H in HR. injection HR as <- <- <-.
  split; [exact Ht|]. split; [congruence|].
  destruct (run_trace _ _ _ _ _ _ H) as (new & Hn & _ & Hall & _).
  exists new. split; [exact Hn|].
  intros cl ctx key data expiration r Hin.
  rewrite Forall_forall in Hall.
  destruct (Hall _ Hin) as (op & _ & Hev).
  destruct op; simpl in Hev; try contradiction.
  destruct Hev as (_ & _ & _ & _ & ->). exact Ht.
Qed.

(** A run of X8: a lifetime of sixty seconds. *)
Lemma configured_ttl_reaches_store_witness :
  ttl (Stub.live 3) = 60 * 1000000000 /\
  ttl (Stub.dead 3) = 60 * 1000000000 /\
  exists new : list (Event string),
    calls (Stub.after 3 (EvGet Stub.cl context_Background "k" ""
                               (Some Stub.refused))
             (Stub.after 3 (Stub.set_done [x31]) (Stub.connected 3))) =
    (new ++ calls (Stub.connected 3))%list /\
    forall cl ctx key data expiration r,
      In (EvSet cl ctx key data expiration r) new ->
      expiration = 60 * 1000000000.
Proof.
  apply (@configured_ttl_reaches_store (Stub.env 3) Stub.url true 60
           (Stub.start 3) (Stub.connected 3) (Stub.connected 3)
           (Stub.after 3 (EvGet Stub.cl context_Background "k" ""
                                (Some Stub.refused))
              (Stub.after 3 (Stub.set_done [x31]) (Stub.connected 3)))
           (Stub.live 3) (Stub.dead 3) (Stub.three 3)
           [@OutSet (Stub.env 3) None; @OutGet (Stub.env 3) false None None;
            @OutDelete (Stub.env 3) None]
           ltac:(lia) eq_refl eq_refl).
Defined.

(* ===================================================================== *)
(** ** Further properties: keys *)
(* ===================================================================== *)

Lemma unhex_pair_hex (v : byte) :
  unhex_pair (hextable_at (N.shiftr (Byte.to_N v) 4))
             (hextable_at (N.land (Byte.to_N v) 15)) = Some v.
Proof. destruct v; vm_compute; reflexivity. Qed.

(** Distinct byte strings have distinct hexadecimal texts. *)
Lemma hex_Encode_inj (a b : bytes) : hex_Encode a = hex_Encode b -> a = b.
Proof.
  revert b. induction a as [|x a IH]; intros [|y b] H.
  - reflexivity.
  - discriminate H.
  - discriminate H.
  - change (hextable_at (N.shiftr (Byte.to_N x) 4)
              :: hextable_at (N.land (Byte.to_N x) 15) :: hex_Encode a =
            hextable_at (N.shiftr (Byte.to_N y) 4)
              :: hextable_at (N.land (Byte.to_N y) 15) :: hex_Encode b) in H.
    injection H as Hhi Hlo Hrest.
    assert (Hxy : Some x = Some y).
    { rewrite <- (unhex_pair_hex x), <- (unhex_pair_hex y).
      exact (f_equal2 unhex_pair Hhi Hlo). }
    injection Hxy as <-. f_equal. now apply IH.
Qed.

Lemma list_ascii_of_string_app (a b : string) :
  list_ascii_of_string (a ++ b) =
  (list_ascii_of_string a ++ list_ascii_of_string b)%list.
Proof. induction a as [|ch a IH]; simpl; [reflexivity | now rewrite IH]. Qed.

Lemma list_ascii_of_string_inj (a b : string) :
  list_ascii_of_string a = list_ascii_of_string b -> a = b.
Proof.
  intros H. rewrite <- (string_of_list_ascii_of_string a),
              <- (string_of_list_ascii_of_string b). now rewrite H.
Qed.

(** Cutting a text at its last separator is unambiguous. *)
Lemma split_at_last {A : Type} (sep : A) (a b s t : list A) :
  ~ In sep s -> ~ In sep t ->
  (a ++ sep :: s)%list = (b ++ sep :: t)%list -> a = b /\ s = t.
Proof.
  intros Hs Ht. revert b.
  induction a as [|x a IH]; intros [|y b]; simpl; intros H.
  - injection H as ->. auto.
  - injection H as -> ->. exfalso. apply Hs. apply in_or_app. right. now left.
  - injection H as -> <-. exfalso. apply Ht. apply in_or_app. right. now left.
  - injection H as -> H. destruct (IH b H) as [-> ->]. auto.
Qed.

Lemma hex_digits_no_colon (l : list ascii) :
  Forall (fun ch => is_hex_digit ch = true) l -> ~ In ":"%char l.
Proof.
  intros H Hin. rewrite Forall_forall in H. specialize (H _ Hin).
  vm_compute in H. discriminate.
Qed.

(** The part of a key after the prefix and its colon: [fallback], or the
    digest in hexadecimal.  It has no colon in it. *)
Lemma GenerateCacheKey_suffix {E : Env} (prefix : string) (params : Value) :
  exists suffix : string,
    Quiet.GenerateCacheKey prefix params = prefix ++ ":" ++ suffix /\
    ~ In ":"%char (list_ascii_of_string suffix) /\
    suffix = match json_Marshal params with
             | inr _ => "fallback"
             | inl data => hex_EncodeToString (sha256_Sum256 data)
             end.
Proof.
  unfold Quiet.GenerateCacheKey.
  destruct (json_Marshal params) as [data|e]; eexists;
    (split; [reflexivity|]); (split; [|reflexivity]).
  - apply hex_digits_no_colon, hex_EncodeToString_digits.
  - simpl. intuition discriminate.
Qed.

(** X9.  When two keys are equal.  [GenerateCacheKey] gives the same key
    for [(prefix1, params1)] and [(prefix2, params2)] exactly when the
    prefixes are equal and either [json.Marshal] fails on both [params], or
    it succeeds on both and the two encodings have the same SHA-256 digest.
    So keys of different prefixes never collide (also when a prefix has a
    colon in it), a fallback key is never the key of an encodable value,
    and all values that cannot be encoded share one key per prefix. *)
Theorem GenerateCacheKey_eq_iff {E : Env}
        (prefix1 prefix2 : string) (params1 params2 : Value) :
  Quiet.GenerateCacheKey prefix1 params1 =
  Quiet.GenerateCacheKey prefix2 params2 <->
  prefix1 = prefix2 /\
  match json_Marshal params1, json_Marshal params2 with
  | inr _, inr _ => True
  | inl data1, inl data2 => sha256_Sum256 data1 = sha256_Sum256 data2
  | _, _ => False
  end.
Proof.
  destruct (GenerateCacheKey_suffix prefix1 params1) as (s1 & K1 & C1 & S1).
  destruct (GenerateCacheKey_suffix prefix2 params2) as (s2 & K2 & C2 & S2).
  rewrite K1, K2. split.
  - intros H. apply (f_equal list_ascii_of_string) in H.
    rewrite !list_ascii_of_string_app in H. simpl in H.
    destruct (split_at_last _ _ _ _ _ C1 C2 H) as [Hp Hs].
    apply list_ascii_of_string_inj in Hp, Hs. split; [exact Hp|].
    rewrite S1, S2 in Hs.
    destruct (json_Marshal params1) as [d1|e1],
             (json_Marshal params2) as [d2|e2]; try exact I.
    + unfold hex_EncodeToString in Hs.
      apply (f_equal list_ascii_of_string) in Hs.
      rewrite !list_ascii_of_string_of_list_ascii in Hs.
      now apply hex_Encode_inj.
    + apply (f_equal String.length) in Hs.
      rewrite hex_EncodeToString_length, sha256_Size in Hs. discriminate.
    + apply (f_equal String.length) in Hs.
      rewrite hex_EncodeToString_length, sha256_Size in Hs. discriminate.
  - intros [-> H]. rewrite S1, S2.
    destruct (json_Marshal params1) as [d1|e1],
             (json_Marshal params2) as [d2|e2]; try contradiction.
    + now rewrite H.
    + reflexivity.
Qed.

(* ===================================================================== *)
(** ** Further properties: how calls compose *)
(* ===================================================================== *)

(** X10.  Round trip.  On an enabled [Cache], when the write of [Set] goes
    through and the store then answers the read of [Get] for the same key
    with the bytes that were written, [Get] hands exactly the bytes that
    [json.Marshal] produced to [json.Unmarshal]: if these decode, [Get]
    returns [(true, nil)] with the decoded destination, and the [Cache] is
    still enabled. *)
Theorem Set_then_Get {E : Env}
        (c : Cache) (cl : Client Options) (ctx ctx' : Context) (key : string)
        (value : Value) (data : bytes) (dest dest' : Dest) (w : World) :
  Quiet.Enabled c = true ->
  client c = Some cl ->
  json_Marshal value = inl data ->
  store_Set (calls w) cl ctx key data (ttl c) = nil_error ->
  store_Get (EvSet cl ctx key data (ttl c) nil_error :: calls w) cl ctx' key =
  (string_of_list_byte data, nil_error) ->
  json_Unmarshal data dest = (dest', nil_error) ->
  Quiet.run [OpSet ctx key value; OpGet ctx' key dest] c w =
  Done ([OutSet nil_error; OutGet true nil_error dest'], c)
       (record (EvGet cl ctx' key (string_of_list_byte data) nil_error)
               (record (EvSet cl ctx key data (ttl c) nil_error) w)).
Proof.
  intros En Hcl HM HS HG HU.
  unfold Quiet.run, Quiet.call. unfold_go. rewrite En, HM, Hcl; simpl.
  rewrite HS; simpl. rewrite En, Hcl; simpl. rewrite HG; simpl.
  rewrite list_byte_of_string_of_list_byte, HU. reflexivity.
Qed.

(** A run of X10 on the test double. *)
Lemma Set_then_Get_witness :
  Quiet.run [@OpSet (Stub.env 9) context_Background "k" (Some [x31]);
             @OpGet (Stub.env 9) context_Background "k" None]
            (Stub.live 9) (Stub.connected 9) =
  Done ([@OutSet (Stub.env 9) None;
         @OutGet (Stub.env 9) true None (Some [x31])], Stub.live 9)
       (Stub.after 9 (EvGet Stub.cl context_Background "k" "1" None)
          (Stub.after 9 (Stub.set_done [x31]) (Stub.connected 9))).
Proof.
  apply (@Set_then_Get (Stub.env 9) (Stub.live 9) Stub.cl
           context_Background context_Background "k" (Some [x31]) [x31]
           None (Some [x31]) (Stub.connected 9)
           eq_refl eq_refl eq_refl eq_refl eq_refl eq_refl).
Defined.

(** X11.  [Close] does not switch the [Cache] off.  On an enabled [Cache],
    [Close] closes the client and assigns nothing: a second [Close] closes
    the same client again, and a [Get] after [Close] still makes its read
    on the closed client. *)
Theorem Close_does_not_disable {E : Env}
        (c : Cache) (cl : Client Options) (ctx : Context) (key : string)
        (dest : Dest) (w : World) :
  Quiet.Enabled c = true ->
  client c = Some cl ->
  exists (r : error) (w1 : World),
    Quiet.Close c w = Done r w1 /\
    calls w1 = EvClose cl r :: calls w /\
    (exists r2 w2,
       Quiet.Close c w1 = Done r2 w2 /\
       calls w2 = EvClose cl r2 :: EvClose cl r :: calls w) /\
    (exists found err dest' c' w2 val r',
       Quiet.Get c ctx key dest w1 = Done (found, err, dest', c') w2 /\
       calls w2 = EvGet cl ctx key val r' :: EvClose cl r :: calls w).
Proof.
  intros En Hcl. unfold Quiet.Close. rewrite Hcl. unfold_go.
  do 2 eexists. split; [reflexivity|]. split; [reflexivity|]. split.
  - do 2 eexists. split; reflexivity.
  - rewrite En, Hcl; simpl.
    destruct (store_Get _ cl ctx key) as [val [e|]]; simpl.
    + destruct (chain_Is e redis_Nil); simpl;
        do 7 eexists; split; reflexivity.
    + destruct (json_Unmarshal _ _) as [d [ue|]]; simpl;
        do 7 eexists; split; reflexivity.
Qed.

(** A run of X11 on the test double. *)
Lemma Close_does_not_disable_witness :
  exists (r : error) (w1 : @World (Stub.env 9)),
    Quiet.Close (Stub.live 9) (Stub.connected 9) = Done r w1 /\
    calls w1 = EvClose Stub.cl r :: calls (Stub.connected 9) /\
    (exists r2 w2,
       Quiet.Close (Stub.live 9) w1 = Done r2 w2 /\
       calls w2 = EvClose Stub.cl r2 :: EvClose Stub.cl r
                          :: calls (Stub.connected 9)) /\
    (exists found err dest' c' w2 val r',
       Quiet.Get (Stub.live 9) context_Background "k" None w1 =
       Done (found, err, dest', c') w2 /\
       calls w2 = EvGet Stub.cl context_Background "k" val r'
                        :: EvClose Stub.cl r :: calls (Stub.connected 9)).
Proof.
  apply (@Close_does_not_disable (Stub.env 9) (Stub.live 9) Stub.cl
           context_Background "k" None (Stub.connected 9) eq_refl eq_refl).
Defined.

(* ===================================================================== *)
(** ** Further properties: the log of the logging variant *)
(* ===================================================================== *)

(** X12.  The logging variant writes one line per data call that reaches
    an enabled [Cache], and none otherwise.  On an enabled [Cache], each of
    [Get], [Set] and [Delete] adds exactly one line to the log, whose first
    argument is the key of the call, whatever the store and the codec
    answer; on a [Cache] that is not enabled the log is left as it is. *)
Theorem Logged_one_line_per_call {E : Env}
        (op : Op) (c c' : Cache) (w w' : World) (o : Out) :
  Logged.call op c w = Done (o, c') w' ->
  if Logged.Enabled c
  then exists line : LogLine,
         logs w' = line :: logs w /\
         hd_error (log_args line) = Some (ArgString (Op_key op))
  else logs w' = logs w.
Proof.
  change (Logged.Enabled c) with (Quiet.Enabled c).
  destruct (Quiet.Enabled c) eqn:En.
  2:{ destruct op; unfold Logged.call; unfold_go;
      change (Logged.Enabled c) with (Quiet.Enabled c); rewrite En; simpl;
      now intros [= <- <- <-]. }
  destruct (Enabled_true c En) as [_ [cl Hcl]].
  destruct op as [ctx key dest | ctx key value | ctx key];
    unfold Logged.call; unfold_go;
    change (Logged.Enabled c) with (Quiet.Enabled c);
    rewrite En, ?Hcl; simpl.
  - destruct (store_Get (calls w) cl ctx key) as [val [e|]]; simpl.
    + destruct (chain_Is e redis_Nil); simpl; intros [= <- <- <-];
        eexists; split; reflexivity.
    + destruct (json_Unmarshal _ _) as [d [ue|]]; simpl;
        intros [= <- <- <-]; eexists; split; reflexivity.
  - destruct (json_Marshal value) as [data|e]; simpl.
    + destruct (store_Set _ _ _ _ _ _) as [e|]; simpl;
        intros [= <- <- <-]; eexists; split; reflexivity.
    + intros [= <- <- <-]. eexists; split; reflexivity.
  - destruct (store_Del _ _ _ _) as [e|]; simpl;
      intros [= <- <- <-]; eexists; split; reflexivity.
Qed.

(** A run of X12: a read that the network refuses is logged with its
    key. *)
Lemma Logged_one_line_per_call_witness :
  exists line : LogLine,
    logs (@mkWorld (Stub.env 2)
            (Stub.get_refused :: calls (Stub.connected 2))
            [mkLogLine "[Redis] Get error for key %s: %v (disabling cache)"
                       [ArgString "k"; ArgError Stub.refused]]) =
    line :: logs (Stub.connected 2) /\
    hd_error (log_args line) = Some (ArgString "k").
Proof.
  apply (@Logged_one_line_per_call (Stub.env 2)
           (@OpGet (Stub.env 2) context_Background "k" None)
           (Stub.live 2) (Stub.dead 2) (Stub.connected 2)
           (@mkWorld (Stub.env 2)
              (Stub.get_refused :: calls (Stub.connected 2))
              [mkLogLine "[Redis] Get error for key %s: %v (disabling cache)"
                         [ArgString "k"; ArgError Stub.refused]])
           (@OutGet (Stub.env 2) false None None)
           eq_refl).
Defined.

(** X13.  The logging variant writes the address to the log as it was
    given.  Whenever [NewCache] is called with the flag argument true and
    a non-empty address, it logs the line [Initializing cache with URL]
    with the whole address and [ttlSeconds] as arguments before it parses
    the address: the line is in the log whether the address parses or not
    and whether the ping is answered or not.  With the flag argument false
    or an empty address, no line carries the address. *)
Theorem Logged_NewCache_logs_address {E : Env}
        (redisURL : string) (enabled0 : bool) (ttlSeconds : Z) (w : World) :
  exists (c : Cache) (new : list LogLine) (w' : World),
    Logged.NewCache redisURL enabled0 ttlSeconds w =
    Done (Some c, nil_error) w' /\
    logs w' = (new ++ logs w)%list /\
    (enabled0 = true -> redisURL <> "" ->
     last new (mkLogLine "" []) =
     mkLogLine "[Redis] Initializing cache with URL: %s, TTL: %d seconds"
               [ArgString redisURL; ArgInt ttlSeconds]) /\
    (enabled0 = false \/ redisURL = "" ->
     exists format, new = [mkLogLine format []]).
Proof.
  unfold Logged.NewCache.
  destruct enabled0; simpl.
  2:{ unfold_go. exists (mkCache None false (Duration_mul ttlSeconds time_Second)).
      eexists [_], _. split; [reflexivity|]. split; [reflexivity|].
      split; [discriminate|]. intros _. eexists. reflexivity. }
  destruct (String.eqb_spec redisURL "") as [Hu|Hu].
  { unfold_go. exists (mkCache None false (Duration_mul ttlSeconds time_Second)).
    eexists [_], _. split; [reflexivity|]. split; [reflexivity|].
    split; [contradiction|]. intros _. eexists. reflexivity. }
  unfold_go; simpl.
  destruct (redis_ParseURL redisURL) as [opt|e]; simpl.
  - destruct (store_Ping _ _ _) as [e|]; simpl;
      eexists _, [_; _], _; (split; [reflexivity|]);
      (split; [reflexivity|]); (split; [reflexivity|]);
      intros [H|H]; [discriminate | contradiction | discriminate | contradiction].
  - eexists _, [_; _], _. split; [reflexivity|]. split; [reflexivity|].
    split; [reflexivity|]. intros [H|H]; [discriminate | contradiction].
Qed.
